(** * ScrapeBadger Node SDK: configuration, request engine and pagination

    A shallow embedding of the core of the SDK (config.ts, exceptions.ts,
    client.ts, pagination.ts and the top-level client) together with the
    properties its design document states about it.

    Conventions of the embedding.
    - A TypeScript optional value ([x?: t], [t | undefined]) is an [option].
    - A JavaScript [number] that counts or measures milliseconds is a [Z].
      A number of a response body is kept as the rational its JSON literal
      denotes ([Q]); when the code computes with it, it is the IEEE 754
      double nearest to that rational, and the arithmetic is the rounded
      arithmetic of doubles ([Double]).
    - A value of a response body keeps the type the server gave it
      ([JSON]): the interfaces of the SDK are compile-time annotations and
      check nothing at run time.
    - Strings are Rocq strings of ASCII text; [toLowerCase] and the
      conversions between strings and numbers are the ASCII ones.
    - A JavaScript object used as a dictionary is a [gmap string _].
    - [throw] is the left injection of a sum, [return] the right one. *)

From Stdlib Require Import ZArith QArith Qround String Ascii List Bool Lia SpecFloat.
From stdpp Require Import gmap strings list pretty.
Import ListNotations.

Set Warnings "-register-all".
Local Open Scope string_scope.
Local Open Scope list_scope.
Local Open Scope Z_scope.

(** ** JavaScript values the code tests for truthiness *)

(** [!!s] for a string: every string but the empty one is truthy. *)
Definition truthy_string (s : string) : bool :=
  match s with
  | EmptyString => false
  | String _ _ => true
  end.

(** [!!x] for an optional string: [undefined] and [""] are falsy. *)
Definition truthy (x : option string) : bool :=
  match x with
  | None => false
  | Some s => truthy_string s
  end.

(** [a ?? b]: the left operand unless it is nullish. *)
Definition nullish {A : Type} (a : option A) (b : A) : A :=
  match a with
  | Some v => v
  | None => b
  end.

Infix "??" := nullish (at level 45, right associativity).

(** A thrown value that is not one of the SDK's own error classes: the
    plain [Error] of the constructor, the [TypeError] of a failed [fetch],
    the [AbortError] of an aborted one, a [SyntaxError] of [json()]. *)
Record JsError := mkJsError { js_name : string; js_message : string }.

(** ** JavaScript numbers

    A [number] is an IEEE 754 binary64 value; the operations are those of
    the Standard Library's specification of floating-point arithmetic,
    at precision 53 and maximal exponent 1024, rounding to nearest with
    ties to even. *)

Module Double.

Definition double : Type := spec_float.
Definition prec : Z := 53.
Definition emax : Z := 1024.

(** The double nearest to an integer, and to a rational: the value of a
    numeric literal. *)
Definition of_Z (z : Z) : double := binary_normalize prec emax z 0 false.

Definition of_Q (q : Q) : double :=
  match Qnum q with
  | Z0 => S754_zero false
  | Zpos n =>
      let '(m, e, l) := SFdiv_core_binary prec emax (Zpos n) 0 (Zpos (Qden q)) 0 in
      binary_round_aux prec emax false m e l
  | Zneg n =>
      let '(m, e, l) := SFdiv_core_binary prec emax (Zpos n) 0 (Zpos (Qden q)) 0 in
      binary_round_aux prec emax true m e l
  end.

(** The rational a finite double is, in lowest terms (0 for the others). *)
Definition to_Q (x : double) : Q :=
  match x with
  | S754_finite s m e =>
      let z := cond_Zopp s (Zpos m) in
      match e with
      | Zneg p => Qred (z # 2 ^ p)
      | _ => inject_Z (z * 2 ^ e)
      end
  | _ => 0%Q
  end.

(** [x - y], [x * y], [x / y] and [x < y] *)
Definition sub : double -> double -> double := SFsub prec emax.
Definition mul : double -> double -> double := SFmul prec emax.
Definition div : double -> double -> double := SFdiv prec emax.
Definition ltb : double -> double -> bool := SFltb.

(** [!!x]: the zeros and [NaN] are falsy. *)
Definition truthy (x : double) : bool :=
  match x with
  | S754_zero _ | S754_nan => false
  | S754_infinity _ | S754_finite _ _ _ => true
  end.

(** The same double, bit for bit. *)
Definition same (x y : double) : bool :=
  match x, y with
  | S754_finite s m e, S754_finite s' m' e' => Bool.eqb s s' && Pos.eqb m m' && (e =? e')
  | S754_zero s, S754_zero s' => Bool.eqb s s'
  | S754_infinity s, S754_infinity s' => Bool.eqb s s'
  | S754_nan, S754_nan => true
  | _, _ => false
  end.

(** *** [Number::toString] *)

(** [10 ^ n] for any integer [n]. *)
Definition pow10 (n : Z) : Q :=
  match n with
  | Zneg p => 1 # 10 ^ p
  | _ => inject_Z (10 ^ n)
  end.

(** The least [n] from [n0] on with [v < 10 ^ n]. *)
Fixpoint magnitude (fuel : nat) (v : Q) (n0 : Z) : Z :=
  match fuel with
  | O => n0
  | S fuel' => if Qle_bool (pow10 n0) v then magnitude fuel' v (n0 + 1) else n0
  end.

(** A lower bound of the decimal magnitude of a number of [b] binary
    digits, at most one below it: [log10 2] lies between 0.30102 and
    0.30103. *)
Definition magnitude_below (b : Z) : Z :=
  ((b - 1) * (if 0 <=? b - 1 then 30102 else 30103)) / 100000 + 1.

(** The integer nearest to [q], ties to even. *)
Definition round_half_even (q : Q) : Z :=
  let f := Qfloor q in
  match Qcompare (q - inject_Z f) (1 # 2) with
  | Lt => f
  | Gt => f + 1
  | Eq => if Z.even f then f else f + 1
  end.

(** The shortest decimal [s * 10 ^ (n - k)] of at least [k] digits that
    reads back as [x], and among those of that length the nearest to [x]
    (whose exact value is [v], below [10 ^ n]). *)
Fixpoint shortest (fuel : nat) (x : double) (v : Q) (n k : Z) : Z * Z * Z :=
  let s := round_half_even (v * pow10 (k - n)) in
  match fuel with
  | O => (s, n, k)
  | S fuel' =>
      if same (of_Q (inject_Z s * pow10 (n - k))) x then
        if s =? 10 ^ k then (1, n + 1, 1) else (s, n, k)
      else shortest fuel' x v n (k + 1)
  end.

Fixpoint zeros (n : nat) : string :=
  match n with O => "" | S n' => "0" +:+ zeros n' end.

Definition take (n : Z) (s : string) : string := substring 0 (Z.to_nat n) s.
Definition drop (n : Z) (s : string) : string :=
  substring (Z.to_nat n) (String.length s - Z.to_nat n) s.

(** [Number::toString(x)] in radix 10: the [k] digits of [s], laid out
    according to [n]. *)
Definition toString (x : double) : string :=
  match x with
  | S754_nan => "NaN"
  | S754_zero _ => "0"
  | S754_infinity negative => if negative then "-Infinity" else "Infinity"
  | S754_finite negative m e =>
      let v := to_Q (S754_finite false m e) in
      let '(s, n, k) :=
        shortest 17 (S754_finite false m e) v
          (magnitude 4 v (magnitude_below (Zpos (digits2_pos m) + e))) 1 in
      let ds := pretty s in
      (if negative then "-" else "") +:+
      (if (k <=? n) && (n <=? 21) then ds +:+ zeros (Z.to_nat (n - k))
       else if (0 <? n) && (n <=? 21) then take n ds +:+ "." +:+ drop n ds
       else if (-6 <? n) && (n <=? 0) then "0." +:+ zeros (Z.to_nat (- n)) +:+ ds
       else
         let exponent :=
           (if n - 1 <? 0 then "-" else "+") +:+ pretty (Z.abs (n - 1)) in
         if k =? 1 then ds +:+ "e" +:+ exponent
         else take 1 ds +:+ "." +:+ drop 1 ds +:+ "e" +:+ exponent)
  end.

(** *** [StringToNumber]

    An optional sign and a decimal literal or [Infinity], or an unsigned
    [0x], [0o] or [0b] literal, between white space; the empty string is
    0 and anything else is [NaN]. *)

Definition nan : double := S754_nan.

Definition is_space (c : ascii) : bool :=
  let n := nat_of_ascii c in
  ((9 <=? n) && (n <=? 13) || (n =? 32))%nat.

Fixpoint trim_start (l : list ascii) : list ascii :=
  match l with
  | c :: l' => if is_space c then trim_start l' else l
  | [] => []
  end.

Definition trim (l : list ascii) : list ascii :=
  rev (trim_start (rev (trim_start l))).

(** The value of [c] as a digit in base [base]. *)
Definition digit (base : Z) (c : ascii) : option Z :=
  let n := Z.of_nat (nat_of_ascii c) in
  let d :=
    if (48 <=? n) && (n <=? 57) then n - 48
    else if (97 <=? n) && (n <=? 122) then n - 87
    else if (65 <=? n) && (n <=? 90) then n - 55
    else base in
  if d <? base then Some d else None.

(** The digits at the head of [l]: their value after [value], their
    number after [count], and what follows them. *)
Fixpoint digits (base : Z) (l : list ascii) (value count : Z) : Z * Z * list ascii :=
  match l with
  | c :: l' =>
      match digit base c with
      | Some d => digits base l' (value * base + d) (count + 1)
      | None => (value, count, l)
      end
  | [] => (value, count, [])
  end.

(** [0x...], [0o...], [0b...] after the prefix. *)
Definition nondecimal (base : Z) (l : list ascii) : double :=
  match digits base l 0 0 with
  | (value, count, []) => if 0 <? count then of_Z value else nan
  | _ => nan
  end.

Definition is_char (c : ascii) (s : string) : bool :=
  match s with
  | String a "" => Ascii.eqb a c
  | _ => false
  end.

(** The exponent part, or nothing. *)
Definition exponent (l : list ascii) : option Z :=
  match l with
  | [] => Some 0
  | c :: r =>
      if is_char c "e" || is_char c "E" then
        let '(sign, r') :=
          match r with
          | s :: r' =>
              if is_char s "+" then (1, r')
              else if is_char s "-" then (-1, r')
              else (1, r)
          | [] => (1, r)
          end in
        match digits 10 r' 0 0 with
        | (value, count, []) => if 0 <? count then Some (sign * value) else None
        | _ => None
        end
      else None
  end.

(** A decimal literal after its sign. *)
Definition decimal (negative : bool) (l : list ascii) : double :=
  let '(whole, n1, r1) := digits 10 l 0 0 in
  let '(all, n2, r2) :=
    match r1 with
    | c :: r => if is_char c "." then digits 10 r whole 0 else (whole, 0, r1)
    | [] => (whole, 0, r1)
    end in
  if n1 + n2 =? 0 then nan
  else
    match exponent r2 with
    | None => nan
    | Some e =>
        if all =? 0 then S754_zero negative
        else of_Q (inject_Z (if negative then - all else all) * pow10 (e - n2))
    end.

Definition signed (negative : bool) (l : list ascii) : double :=
  if String.eqb (string_of_list_ascii l) "Infinity" then S754_infinity negative
  else decimal negative l.

(** [StringToNumber(s)] *)
Definition of_string (s : string) : double :=
  match trim (list_ascii_of_string s) with
  | [] => S754_zero false
  | c :: r =>
      if is_char c "+" then signed false r
      else if is_char c "-" then signed true r
      else
        match r with
        | p :: r' =>
            if is_char c "0" && (is_char p "x" || is_char p "X") then nondecimal 16 r'
            else if is_char c "0" && (is_char p "o" || is_char p "O") then nondecimal 8 r'
            else if is_char c "0" && (is_char p "b" || is_char p "B") then nondecimal 2 r'
            else signed false (c :: r)
        | [] => signed false (c :: r)
        end
  end.

End Double.

(** ** JavaScript values

    What [JSON.parse] can produce.  An object keeps its properties as an
    association list with distinct keys; a number is the rational its
    literal denotes and stands for the double nearest to it. *)
Inductive JSON :=
| JNull
| JBool (b : bool)
| JNumber (q : Q)
| JString (s : string)
| JArray (elements : list JSON)
| JObject (properties : list (string * JSON)).

(** [v[key]] for a value [v] that is not [null] and a [key] that is not a
    property of arrays, strings or [Object.prototype] (the SDK reads no
    other): the property of an object, [undefined] for anything else. *)
Definition property (key : string) (v : JSON) : option JSON :=
  match v with
  | JObject properties =>
      snd <$> List.find (fun kv => String.eqb (fst kv) key) properties
  | _ => None
  end.

(** The left operand of [??] when it is a property: [null] is nullish as
    [undefined] is. *)
Definition non_null (x : option JSON) : option JSON :=
  match x with
  | Some JNull => None
  | _ => x
  end.

(** [!!v] *)
Definition truthy_JSON (v : JSON) : bool :=
  match v with
  | JNull => false
  | JBool b => b
  | JNumber q => Double.truthy (Double.of_Q q)
  | JString s => truthy_string s
  | JArray _ | JObject _ => true
  end.

(** What converting an object to a primitive throws when the object has
    no usable [toString]. *)
Definition not_primitive : JsError :=
  mkJsError "TypeError" "Cannot convert object to primitive value".

(** [String(v)], which is also what the constructor of [Error] makes of
    its argument.  An array is its elements joined by commas, [null]
    elements giving nothing.  An object is "[object Object]", unless it has
    a property [toString] of its own: that one shadows the method, is not a
    function, and the conversion throws. *)
Fixpoint ToString (v : JSON) : JsError + string :=
  match v with
  | JNull => inr "null"
  | JBool b => inr (if b then "true" else "false")
  | JNumber q => inr (Double.toString (Double.of_Q q))
  | JString s => inr s
  | JArray elements =>
      (fix join (l : list JSON) : JsError + string :=
         match l with
         | [] => inr ""
         | x :: l' =>
             match match x with JNull => inr "" | _ => ToString x end with
             | inl e => inl e
             | inr first =>
                 match l' with
                 | [] => inr first
                 | _ :: _ =>
                     match join l' with
                     | inl e => inl e
                     | inr rest => inr (first +:+ "," +:+ rest)
                     end
                 end
             end
         end) elements
  | JObject properties =>
      if existsb (fun kv => String.eqb (fst kv) "toString") properties
      then inl not_primitive
      else inr "[object Object]"
  end.

(** [ToNumber(v)], applied to the operands of an arithmetic operator: an
    array or an object is first turned into a string. *)
Definition ToNumber (v : JSON) : JsError + Double.double :=
  match v with
  | JNull => inr (Double.of_Z 0)
  | JBool b => inr (Double.of_Z (if b then 1 else 0))
  | JNumber q => inr (Double.of_Q q)
  | JString s => inr (Double.of_string s)
  | JArray _ | JObject _ =>
      match ToString v with
      | inl e => inl e
      | inr s => inr (Double.of_string s)
      end
  end.

(** ** config.ts *)

Module Config.

(** [ScrapeBadgerConfig]: the API key is required by the type. *)
Record ScrapeBadgerConfig := mkConfig {
  cfg_apiKey : string;
  cfg_baseUrl : option string;
  cfg_timeout : option Z;
  cfg_maxRetries : option Z;
  cfg_retryDelay : option Z
}.

(** [Partial<ScrapeBadgerConfig>], the argument of the client constructor. *)
Record PartialConfig := mkPartial {
  part_apiKey : option string;
  part_baseUrl : option string;
  part_timeout : option Z;
  part_maxRetries : option Z;
  part_retryDelay : option Z
}.

Record ResolvedConfig := mkResolved {
  apiKey : string;
  baseUrl : string;
  timeout : Z;
  maxRetries : Z;
  retryDelay : Z
}.

Definition DEFAULT_BASE_URL : string := "https://api.scrapebadger.com".
Definition DEFAULT_TIMEOUT : Z := 30000.
Definition DEFAULT_MAX_RETRIES : Z := 3.
Definition DEFAULT_RETRY_DELAY : Z := 1000.

Definition resolveConfig (config : ScrapeBadgerConfig) : JsError + ResolvedConfig :=
  if negb (truthy_string (cfg_apiKey config)) then
    inl (mkJsError "Error" "API key is required")
  else
    inr {| apiKey := cfg_apiKey config;
           baseUrl := cfg_baseUrl config ?? DEFAULT_BASE_URL;
           timeout := cfg_timeout config ?? DEFAULT_TIMEOUT;
           maxRetries := cfg_maxRetries config ?? DEFAULT_MAX_RETRIES;
           retryDelay := cfg_retryDelay config ?? DEFAULT_RETRY_DELAY |}.

(** The process environment: [None] when there is no [process] global or
    it has no [env]; otherwise the variables that are set. *)
Definition ProcessEnv := option (gmap string string).

Definition getApiKeyFromEnv (process : ProcessEnv) : option string :=
  match process with
  | Some env => env !! "SCRAPEBADGER_API_KEY"
  | None => None
  end.

(** [{ ...config, apiKey }] *)
Definition with_apiKey (config : PartialConfig) (apiKey : string) : ScrapeBadgerConfig :=
  {| cfg_apiKey := apiKey;
     cfg_baseUrl := part_baseUrl config;
     cfg_timeout := part_timeout config;
     cfg_maxRetries := part_maxRetries config;
     cfg_retryDelay := part_retryDelay config |}.

(** [new ScrapeBadger({})] *)
Definition empty_config : PartialConfig := mkPartial None None None None None.

(** The configuration that supplies every field of [rc]. *)
Definition as_partial (rc : ResolvedConfig) : PartialConfig :=
  {| part_apiKey := Some (apiKey rc);
     part_baseUrl := Some (baseUrl rc);
     part_timeout := Some (timeout rc);
     part_maxRetries := Some (maxRetries rc);
     part_retryDelay := Some (retryDelay rc) |}.

End Config.

Import Config.

(** ** The top-level client (client.ts) *)

(** The object built by [new BaseClient(resolvedConfig)] keeps the
    configuration and nothing else. *)
Record BaseClient := mkBaseClient { config : ResolvedConfig }.

(** The object built by [new ScrapeBadger(config)]; the Twitter
    sub-clients only hold a reference to [baseClient]. *)
Record ScrapeBadger := mkScrapeBadger { baseClient : BaseClient }.

Definition missing_key_message : string :=
  "API key is required. Pass it in the config or set SCRAPEBADGER_API_KEY environment variable.".

(** The constructor of [ScrapeBadger].  It is a function of its argument
    and of the process environment only: nothing in it can reach the
    network. *)
Definition new_ScrapeBadger (process : ProcessEnv) (config : PartialConfig)
  : JsError + ScrapeBadger :=
  (* const apiKey = config.apiKey ?? getApiKeyFromEnv(); *)
  let apiKey :=
    match part_apiKey config with
    | Some k => Some k
    | None => getApiKeyFromEnv process
    end in
  (* if (!apiKey) throw ...; past the test, apiKey is a non-empty string *)
  match apiKey with
  | None => inl (mkJsError "Error" missing_key_message)
  | Some k =>
      if negb (truthy_string k) then
        inl (mkJsError "Error" missing_key_message)
      else
        match resolveConfig (with_apiKey config k) with
        | inl e => inl e
        | inr resolvedConfig => inr (mkScrapeBadger (mkBaseClient resolvedConfig))
        end
  end.

(** The credential the constructor settles on: the explicit one when it
    is defined, else the one of the environment. *)
Definition chosen_credential (process : ProcessEnv) (config : PartialConfig)
  : option string :=
  match part_apiKey config with
  | Some k => Some k
  | None => getApiKeyFromEnv process
  end.

(** ** exceptions.ts *)

(** The class hierarchy rooted at [ScrapeBadgerError], as a closed sum:
    one constructor per class, carrying the message and the class's own
    fields.  The [ScrapeBadgerError] constructor stands for an instance of
    the base class itself.  A field that is filled from a response body
    holds the value of the body as it is, whatever its type; [None] is
    [undefined]. *)
Inductive SdkError :=
| ScrapeBadgerError (message : string)
| AuthenticationError (message : string)
| RateLimitError (message : string) (retryAfter limit remaining : option JSON)
| NotFoundError (message : string) (resourceType resourceId : option string)
| ValidationError (message : string) (errors : option JSON)
| ServerError (message : string) (statusCode : Z)
| TimeoutError (message : string) (timeout : Z)
| InsufficientCreditsError (message : string) (creditsBalance : option JSON)
| AccountRestrictedError (message : string) (reason : option JSON).

(** [error.name], set by each constructor. *)
Definition error_name (e : SdkError) : string :=
  match e with
  | ScrapeBadgerError _ => "ScrapeBadgerError"
  | AuthenticationError _ => "AuthenticationError"
  | RateLimitError _ _ _ _ => "RateLimitError"
  | NotFoundError _ _ _ => "NotFoundError"
  | ValidationError _ _ => "ValidationError"
  | ServerError _ _ => "ServerError"
  | TimeoutError _ _ => "TimeoutError"
  | InsufficientCreditsError _ _ => "InsufficientCreditsError"
  | AccountRestrictedError _ _ => "AccountRestrictedError"
  end.

Definition error_message (e : SdkError) : string :=
  match e with
  | ScrapeBadgerError m | AuthenticationError m | RateLimitError m _ _ _
  | NotFoundError m _ _ | ValidationError m _ | ServerError m _
  | TimeoutError m _ | InsufficientCreditsError m _
  | AccountRestrictedError m _ => m
  end.

(** Anything a [catch] clause can receive. *)
Inductive Thrown :=
| ThrowSdk (e : SdkError)
| ThrowJs (e : JsError).

(** The [instanceof] tests of the retry loop. *)
Definition instanceof_ScrapeBadgerError (error : Thrown) : bool :=
  match error with ThrowSdk _ => true | ThrowJs _ => false end.

Definition instanceof_RateLimitError (error : Thrown) : bool :=
  match error with ThrowSdk (RateLimitError _ _ _ _) => true | _ => false end.

Definition instanceof_AuthenticationError (error : Thrown) : bool :=
  match error with ThrowSdk (AuthenticationError _) => true | _ => false end.

Definition instanceof_NotFoundError (error : Thrown) : bool :=
  match error with ThrowSdk (NotFoundError _ _ _) => true | _ => false end.

Definition instanceof_ValidationError (error : Thrown) : bool :=
  match error with ThrowSdk (ValidationError _ _) => true | _ => false end.

Definition instanceof_InsufficientCreditsError (error : Thrown) : bool :=
  match error with ThrowSdk (InsufficientCreditsError _ _) => true | _ => false end.

Definition instanceof_AccountRestrictedError (error : Thrown) : bool :=
  match error with ThrowSdk (AccountRestrictedError _ _) => true | _ => false end.

(** ** pagination.ts *)

Module Pagination.

Record PaginatedResponse (T : Type) := mkPage {
  data : list T;
  nextCursor : option string;
  hasMore : bool
}.
Arguments mkPage {T} _ _ _.
Arguments data {T} _.
Arguments nextCursor {T} _.
Arguments hasMore {T} _.

(** [IteratorOptions extends PaginationOptions] *)
Record IteratorOptions := mkOptions {
  count : option Z;
  cursor : option string;
  maxItems : option Z
}.

(** The default [options = {}] of [paginate]. *)
Definition no_options : IteratorOptions := mkOptions None None None.

Definition createPaginatedResponse {T : Type} (data : list T) (cursor : option string)
  : PaginatedResponse T :=
  {| data := data; nextCursor := cursor; hasMore := truthy cursor |}.

(** *** The generator [paginate]

    An async generator is a coroutine; it is modelled as a machine that
    performs one observable action per step: a call of [fetchPage], a
    [yield], the final [return], or the propagation of an exception of
    [fetchPage].  The page fetcher is any function of the cursor that may
    also depend on and change a state of its own (a mock that answers by
    call number, a client talking to a server). *)
Section Paginate.
Context {T S : Type}.
Variable fetchPage : S -> option string -> (Thrown + PaginatedResponse T) * S.
Variable options : IteratorOptions.

Inductive Action :=
| Fetch (cursor : option string)
| Yield (item : T)
| Return
| Throw (e : Thrown).

(** Where the generator stands between two actions.  [InPage] is the head
    of the [for ... of response.data] loop with the items still to visit;
    [Yielded] is the suspension at [yield item], before
    [totalYielded++]. *)
Inductive Gen :=
| Start
| InPage (items : list T) (response_nextCursor : option string) (totalYielded : Z)
| Yielded (items : list T) (response_nextCursor : option string) (totalYielded : Z)
| Failed (e : Thrown)
| Done.

(** [const response = await fetchPage(cursor)] *)
Definition do_fetch (cursor : option string) (totalYielded : Z) (s : S)
  : Action * Gen * S :=
  match fetchPage s cursor with
  | (inr response, s') =>
      (Fetch cursor, InPage (data response) (nextCursor response) totalYielded, s')
  | (inl e, s') => (Fetch cursor, Failed e, s')
  end.

(** The head of the [for] loop and, once the page is exhausted,
    [cursor = response.nextCursor; } while (cursor)]. *)
Definition for_head (items : list T) (response_nextCursor : option string)
    (totalYielded : Z) (s : S) : Action * Gen * S :=
  match items with
  | item :: rest => (Yield item, Yielded rest response_nextCursor totalYielded, s)
  | [] =>
      if truthy response_nextCursor
      then do_fetch response_nextCursor totalYielded s
      else (Return, Done, s)
  end.

(** [maxItems !== undefined && totalYielded >= maxItems] *)
Definition cap_reached (totalYielded : Z) : bool :=
  match maxItems options with
  | Some m => m <=? totalYielded
  | None => false
  end.

Definition step (g : Gen) (s : S) : option (Action * Gen * S) :=
  match g with
  | Start => Some (do_fetch None 0 s)
  | InPage items nc totalYielded => Some (for_head items nc totalYielded s)
  | Yielded items nc totalYielded =>
      let totalYielded := totalYielded + 1 in
      if cap_reached totalYielded
      then Some (Return, Done, s)
      else Some (for_head items nc totalYielded s)
  | Failed e => Some (Throw e, Done, s)
  | Done => None
  end.

(** Drive a generator for at most [fuel] actions. *)
Fixpoint run (fuel : nat) (g : Gen) (s : S) : list Action * Gen * S :=
  match fuel with
  | O => ([], g, s)
  | Datatypes.S fuel' =>
      match step g s with
      | None => ([], g, s)
      | Some (a, g', s') =>
          let '(tr, g'', s'') := run fuel' g' s' in (a :: tr, g'', s'')
      end
  end.

(** What a consumer of the sequence sees, and what the fetcher was asked. *)
Fixpoint yields (tr : list Action) : list T :=
  match tr with
  | [] => []
  | Yield x :: tr' => x :: yields tr'
  | _ :: tr' => yields tr'
  end.

Fixpoint fetches (tr : list Action) : list (option string) :=
  match tr with
  | [] => []
  | Fetch c :: tr' => c :: fetches tr'
  | _ :: tr' => fetches tr'
  end.

Fixpoint thrown (tr : list Action) : option Thrown :=
  match tr with
  | [] => None
  | Throw e :: _ => Some e
  | _ :: tr' => thrown tr'
  end.

(** [collectAll(generator)]: drain the generator; [None] when [fuel]
    actions do not exhaust it. *)
Definition collectAll (fuel : nat) (g : Gen) (s : S) : option (Thrown + list T) :=
  match run fuel g s with
  | (tr, Done, _) =>
      match thrown tr with
      | Some e => Some (inl e)
      | None => Some (inr (yields tr))
      end
  | _ => None
  end.

(** *** Vocabulary for the properties of [paginate] *)

(** Several actions in a row. *)
Inductive Steps : Gen -> S -> list Action -> Gen -> S -> Prop :=
| Steps_refl g s : Steps g s [] g s
| Steps_step g s a g1 s1 tr g2 s2 :
    step g s = Some (a, g1, s1) ->
    Steps g1 s1 tr g2 s2 ->
    Steps g s (a :: tr) g2 s2.

(** [Upstream s c ps s']: asked with cursor [c] in state [s], the fetcher
    serves the page at the head of [ps]; asked again with the cursor of each
    page, it serves the next, up to the first page whose cursor is absent or
    the empty string, which is the last of [ps]; the fetcher is then in
    state [s']. *)
Inductive Upstream : S -> option string -> list (PaginatedResponse T) -> S -> Prop :=
| Upstream_last s c p s' :
    fetchPage s c = (inr p, s') ->
    nextCursor p = None \/ nextCursor p = Some "" ->
    Upstream s c [p] s'
| Upstream_next s c p s1 ps s' :
    fetchPage s c = (inr p, s1) ->
    (exists c', nextCursor p = Some c' /\ c' <> "") ->
    Upstream s1 (nextCursor p) ps s' ->
    Upstream s c (p :: ps) s'.

(** The pages still to come after a page whose cursor is [nc]. *)
Definition Remaining (s : S) (nc : option string) (ps : list (PaginatedResponse T))
    (s' : S) : Prop :=
  if truthy nc then Upstream s nc ps s' else ps = [] /\ s' = s.

(** The actions of an uncapped traversal of the pages [ps], the first of
    which was asked for with [cursor]. *)
Fixpoint page_trace (cursor : option string) (ps : list (PaginatedResponse T))
  : list Action :=
  match ps with
  | [] => []
  | p :: ps' => Fetch cursor :: map Yield (data p) ++ page_trace (nextCursor p) ps'
  end.

(** The cursors the pages [ps] are asked for with. *)
Fixpoint cursors (cursor : option string) (ps : list (PaginatedResponse T))
  : list (option string) :=
  match ps with
  | [] => []
  | p :: ps' => cursor :: cursors (nextCursor p) ps'
  end.

(** [Heads g items nc n]: the generator [g] is about to visit [items] at
    the head of the [for] loop, [n] items having been counted. *)
Definition Heads (g : Gen) (items : list T) (nc : option string) (n : Z) : Prop :=
  forall s, step g s = Some (for_head items nc n s).

(** What a traversal that ends without an exception has gone through. *)
Definition Traversed (g : Gen) (s : S) (tr : list Action) (s' : S) : Prop :=
  match g with
  | Start => exists ps, Upstream s None ps s' /\ tr = page_trace None ps ++ [Return]
  | InPage items nc _ | Yielded items nc _ =>
      exists ps, Remaining s nc ps s'
                 /\ tr = map Yield items ++ page_trace nc ps ++ [Return]
  | Failed _ => False
  | Done => tr = [] /\ s' = s
  end.

(** How many of the pages [ps] a traversal capped at [budget] items (at
    least one) asks for: it goes on to the next page only while the pages
    seen hold fewer items than the cap. *)
Fixpoint pages_needed (budget : nat) (ps : list (PaginatedResponse T)) : nat :=
  match ps with
  | [] => O
  | p :: ps' =>
      if (budget <=? length (data p))%nat then 1%nat
      else Datatypes.S (pages_needed (budget - length (data p)) ps')
  end.

(** [UpstreamFails s c ps e s']: the fetcher serves the pages [ps], each
    with a cursor that is followed, and then throws [e] on the next call. *)
Inductive UpstreamFails
  : S -> option string -> list (PaginatedResponse T) -> Thrown -> S -> Prop :=
| UpstreamFails_here s c e s' :
    fetchPage s c = (inl e, s') ->
    UpstreamFails s c [] e s'
| UpstreamFails_later s c p s1 ps e s' :
    fetchPage s c = (inr p, s1) ->
    truthy (nextCursor p) = true ->
    UpstreamFails s1 (nextCursor p) ps e s' ->
    UpstreamFails s c (p :: ps) e s'.

(** The actions of a traversal of the pages [ps] that ends on a call of
    the fetcher that throws [e]. *)
Fixpoint fail_trace (cursor : option string) (ps : list (PaginatedResponse T))
    (e : Thrown) : list Action :=
  match ps with
  | [] => [Fetch cursor; Throw e]
  | p :: ps' => Fetch cursor :: map Yield (data p) ++ fail_trace (nextCursor p) ps' e
  end.

(** All the items of the pages, in order. *)
Definition all_items (ps : list (PaginatedResponse T)) : list T :=
  concat (map data ps).

End Paginate.

Arguments Fetch {T} _.
Arguments Return {T}.
Arguments Throw {T} _.
Arguments Start {T}.
Arguments Failed {T} _.
Arguments Done {T}.
Arguments InPage {T} _ _ _.
Arguments Yielded {T} _ _ _.

(** [paginate(fetchPage, options)] creates the generator, suspended at its
    start; nothing runs until the consumer asks for the first item. *)
Definition paginate {T S : Type}
    (fetchPage : S -> option string -> (Thrown + PaginatedResponse T) * S)
    (options : IteratorOptions) : Gen (T:=T) := Start.

(** Two generator states that differ at most in that one holds the empty
    string where the other holds no cursor. *)
Inductive SameButCursor {T : Type} : Gen (T:=T) -> Gen (T:=T) -> Prop :=
| Same_InPage items n : SameButCursor (InPage items (Some "") n) (InPage items None n)
| Same_Yielded items n : SameButCursor (Yielded items (Some "") n) (Yielded items None n)
| Same_Done : SameButCursor Done Done.

(** A fetcher in the manner of the test suite's mocks
    ([vi.fn().mockResolvedValueOnce(p1).mockResolvedValueOnce(p2)...]): the
    state is the list of pages still to serve, the cursor is ignored, and a
    call past the last page resolves to [undefined], on which
    [response.data] throws a [TypeError]. *)
Definition scripted {T : Type} (s : list (PaginatedResponse T)) (cursor : option string)
  : (Thrown + PaginatedResponse T) * list (PaginatedResponse T) :=
  match s with
  | p :: s' => (inr p, s')
  | [] => (inl (ThrowJs (mkJsError "TypeError"
             "Cannot read properties of undefined (reading 'data')")), [])
  end.

End Pagination.

(** ** client.ts: the request engine *)

Module Client.

(** *** Strings *)

Definition char_toLowerCase (c : ascii) : ascii :=
  let n := nat_of_ascii c in
  if ((65 <=? n) && (n <=? 90))%nat then ascii_of_nat (n + 32) else c.

(** [s.toLowerCase()] on ASCII text. *)
Fixpoint toLowerCase (s : string) : string :=
  match s with
  | EmptyString => EmptyString
  | String c s' => String (char_toLowerCase c) (toLowerCase s')
  end.

(** [s.includes(sub)] *)
Fixpoint includes (sub s : string) : bool :=
  String.prefix sub s ||
  match s with
  | EmptyString => false
  | String _ s' => includes sub s'
  end.

(** *** Response bodies *)

(** What the code observes of a [Response] of the Fetch API. *)
Record Response := mkResponse {
  status : Z;
  content_type : option string;   (* response.headers.get("content-type") *)
  json : JsError + JSON;          (* await response.json() *)
  text : string                   (* await response.text() *)
}.

(** [response.ok] *)
Definition ok (response : Response) : bool :=
  (200 <=? status response) && (status response <=? 299).

(** The first block of [handleResponse]: the parsed body. *)
Definition parse_body (response : Response) : Thrown + JSON :=
  let contentType := content_type response in
  if match contentType with
     | Some ct => includes "application/json" ct
     | None => false
     end
  then
    match json response with
    | inl e => inl (ThrowJs e)
    | inr data => inr data
    end
  else
    inr (JObject [("detail", JString (text response))]).

(** [throw new C(message, ...)]: every error class hands [message] to
    the constructor of [Error], which keeps its conversion to a string; if
    the conversion throws, that is what is thrown. *)
Definition throw_new (message : JSON) (C : string -> SdkError) : Thrown :=
  match ToString message with
  | inl e => ThrowJs e
  | inr message => ThrowSdk (C message)
  end.

(** The rest of [handleResponse].  The message is
    [errorData.detail ?? errorData.message ?? "Request failed"], a value of
    any type that is not [null].  Reading a property of a [null] body, and
    calling [toLowerCase] on a message that is not a string, throw a
    [TypeError]. *)
Definition handleResponse (response : Response) : Thrown + JSON :=
  match parse_body response with
  | inl e => inl e
  | inr data =>
      if ok response then inr data
      else
        match data with
        | JNull =>
            inl (ThrowJs (mkJsError "TypeError"
                   "Cannot read properties of null (reading 'detail')"))
        | errorData =>
            let message :=
              non_null (property "detail" errorData)
              ?? non_null (property "message" errorData)
              ?? JString "Request failed" in
            let status := status response in
            (* switch (response.status) *)
            if status =? 401 then inl (throw_new message AuthenticationError)
            else if status =? 402 then
              inl (throw_new message
                     (fun message =>
                        InsufficientCreditsError message
                          (property "credits_balance" errorData)))
            else if status =? 403 then
              match message with
              | JString message =>
                  if includes "restricted" (toLowerCase message)
                  then inl (ThrowSdk (AccountRestrictedError message
                                        (property "reason" errorData)))
                  else inl (ThrowSdk (AuthenticationError message))
              | _ =>
                  inl (ThrowJs (mkJsError "TypeError"
                         "message.toLowerCase is not a function"))
              end
            else if status =? 404 then
              inl (throw_new message (fun message => NotFoundError message None None))
            else if status =? 422 then
              inl (throw_new message
                     (fun message =>
                        ValidationError message (property "errors" errorData)))
            else if status =? 429 then
              inl (throw_new message
                     (fun message =>
                        RateLimitError message
                          (property "reset_at" errorData)
                          (property "limit" errorData)
                          (property "remaining" errorData)))
            else if 500 <=? status then
              inl (throw_new message (fun message => ServerError message status))
            else inl (throw_new message ScrapeBadgerError)
        end
  end.

(** *** The outside world *)

Inductive Method := GET | POST | PUT | DELETE | PATCH.

(** The [RequestInit] handed to [fetch]. *)
Record RequestInit := mkRequestInit {
  init_method : Method;
  init_headers : gmap string string;
  init_body : option string
}.

(** What a call of [fetch] settles to: a response, or a rejection (a
    network failure, or the [AbortError] raised when the timeout timer
    aborts the request). *)
Inductive FetchOutcome :=
| Resolved (response : Response)
| Rejected (e : JsError).

(** The effects of the engine, in the order they happen. *)
Inductive Event :=
| FetchCall (url : string) (init : RequestInit)
| Sleep (ms : Q).

(** The state of the world is the history of effects so far. *)
Definition World := list Event.

(** The environment answers as a function of the history: how the [n]-th
    call of [fetch] settles, and what [Date.now()] reads (milliseconds
    since the epoch). *)
Record Env := mkEnv {
  fetch : World -> string -> RequestInit -> FetchOutcome;
  Date_now : World -> Z
}.

Definition is_FetchCall (e : Event) : bool :=
  match e with FetchCall _ _ => true | Sleep _ => false end.

(** The number of requests sent, and the pauses taken, in a history. *)
Definition attempts (w : World) : nat := length (List.filter is_FetchCall w).

Fixpoint sleeps (w : World) : list Q :=
  match w with
  | [] => []
  | Sleep ms :: w' => ms :: sleeps w'
  | FetchCall _ _ :: w' => sleeps w'
  end.

Section Engine.
Variable env : Env.
Variable cfg : ResolvedConfig.

Definition fetchWithTimeout (url : string) (options : RequestInit) (w : World)
  : (Thrown + Response) * World :=
  let w' := w ++ [FetchCall url options] in
  match fetch env w url options with
  | Resolved response => (inr response, w')
  | Rejected error =>
      if String.eqb (js_name error) "AbortError"
      then (inl (ThrowSdk
              (TimeoutError
                 ("Request timed out after " +:+ pretty (timeout cfg) +:+ "ms")
                 (timeout cfg))), w')
      else (inl (ThrowJs error), w')
  end.

(** The [try] block of the retry loop. *)
Definition try_attempt (url : string) (options : RequestInit) (w : World)
  : (Thrown + JSON) * World :=
  match fetchWithTimeout url options w with
  | (inr response, w') => (handleResponse response, w')
  | (inl e, w') => (inl e, w')
  end.

(** The classes the loop rethrows at once. *)
Definition rethrown_at_once (error : Thrown) : bool :=
  instanceof_ScrapeBadgerError error && negb (instanceof_RateLimitError error) &&
  (instanceof_AuthenticationError error
   || instanceof_NotFoundError error
   || instanceof_ValidationError error
   || instanceof_InsufficientCreditsError error
   || instanceof_AccountRestrictedError error).

(** [throw lastError ?? new ScrapeBadgerError("Request failed after retries")] *)
Definition after_loop (lastError : option Thrown) : Thrown + JSON :=
  inl (lastError ?? ThrowSdk (ScrapeBadgerError "Request failed after retries")).

(** The [for] loop of [executeWithRetry], entered at its test with the
    current [attempt] and [lastError].  Each iteration consumes one unit
    of [fuel]; the result is [None] when the fuel runs out before the
    loop ends. *)
Fixpoint retry_loop (url : string) (options : RequestInit) (fuel : nat)
    (attempt : Z) (lastError : option Thrown) (w : World)
  : option (Thrown + JSON) * World :=
  if attempt <=? maxRetries cfg then
    match fuel with
    | O => (None, w)
    | S fuel' =>
        match try_attempt url options w with
        | (inr result, w1) => (Some (inr result), w1)
        | (inl error, w1) =>
            (* lastError = error *)
            if rethrown_at_once error then (Some (inl error), w1)
            else if attempt =? maxRetries cfg then
              (* break *)
              (Some (after_loop (Some error)), w1)
            else
              let delay := inject_Z (retryDelay cfg * 2 ^ attempt) in
              match error with
              | ThrowSdk (RateLimitError _ (Some retryAfter) _ _) =>
                  (* error instanceof RateLimitError && error.retryAfter *)
                  if truthy_JSON retryAfter then
                    match ToNumber retryAfter with
                    | inl e =>
                        (* the subtraction throws, inside the [catch] clause *)
                        (Some (inl (ThrowJs e)), w1)
                    | inr retryAfter =>
                        let retryDelay :=
                          Double.mul
                            (Double.sub retryAfter
                               (Double.div (Double.of_Z (Date_now env w1))
                                  (Double.of_Z 1000)))
                            (Double.of_Z 1000) in
                        if Double.ltb (Double.of_Z 0) retryDelay
                           && Double.ltb retryDelay (Double.of_Z 60000) then
                          (* await this.sleep(retryDelay); continue *)
                          retry_loop url options fuel' (attempt + 1) (Some error)
                            (w1 ++ [Sleep (Double.to_Q retryDelay)])
                        else
                          retry_loop url options fuel' (attempt + 1) (Some error)
                            (w1 ++ [Sleep delay])
                    end
                  else
                    retry_loop url options fuel' (attempt + 1) (Some error)
                      (w1 ++ [Sleep delay])
              | _ =>
                  retry_loop url options fuel' (attempt + 1) (Some error)
                    (w1 ++ [Sleep delay])
              end
        end
    end
  else (Some (after_loop lastError), w).

(** The loop runs for [attempt = 0 .. maxRetries]: at most
    [maxRetries + 1] iterations. *)
Definition executeWithRetry (url : string) (options : RequestInit) (w : World)
  : option (Thrown + JSON) * World :=
  retry_loop url options (Z.to_nat (maxRetries cfg + 1)) 0 None w.

End Engine.

(** *** Vocabulary for the properties of the engine *)

(** The kinds of error that are fatal: never retried. *)
Definition fatal_kind (e : SdkError) : bool :=
  match e with
  | AuthenticationError _ | NotFoundError _ _ _ | ValidationError _ _
  | InsufficientCreditsError _ _ | AccountRestrictedError _ _ => true
  | ScrapeBadgerError _ | RateLimitError _ _ _ _ | ServerError _ _
  | TimeoutError _ _ => false
  end.

(** A thrown value is transient when it is not an error of a fatal kind:
    a rate limit, a server error, a timeout, a generic SDK error, or
    anything that is not an SDK error at all. *)
Definition transient (error : Thrown) : bool :=
  match error with
  | ThrowSdk e => negb (fatal_kind e)
  | ThrowJs _ => true
  end.

(** The delay the server asks for, in milliseconds, when the clock reads
    [now]: the reset time (in seconds since the epoch) minus the current
    time, as doubles compute it. *)
Definition serverDelay (resetTimestamp : Double.double) (now : Z) : Double.double :=
  Double.mul
    (Double.sub resetTimestamp (Double.div (Double.of_Z now) (Double.of_Z 1000)))
    (Double.of_Z 1000).

(** [0 < delay && delay < 60000] *)
Definition within_a_minute (delay : Double.double) : bool :=
  Double.ltb (Double.of_Z 0) delay && Double.ltb delay (Double.of_Z 60000).


(** The exponential backoff value of an attempt. *)
Definition backoff (cfg : ResolvedConfig) (attempt : Z) : Q :=
  inject_Z (retryDelay cfg * 2 ^ attempt).

(** The reset timestamp of a rate limit, when the loop computes with it:
    it is there and truthy. *)
Definition reset_timestamp (error : Thrown) : option JSON :=
  match error with
  | ThrowSdk (RateLimitError _ (Some retryAfter) _ _) =>
      if truthy_JSON retryAfter then Some retryAfter else None
  | _ => None
  end.

(** The error is not a rate limit whose reset timestamp the loop computes
    with and cannot turn into a number. *)
Definition readable (error : Thrown) : bool :=
  match reset_timestamp error with
  | Some retryAfter =>
      match ToNumber retryAfter with inl _ => false | inr _ => true end
  | None => true
  end.

(** The reset time the loop computes with, in seconds since the epoch. *)
Definition reset_time (error : Thrown) : option Double.double :=
  match reset_timestamp error with
  | Some retryAfter =>
      match ToNumber retryAfter with inl _ => None | inr x => Some x end
  | None => None
  end.

(** The error is a rate limit whose reset lies less than a minute ahead. *)
Definition server_delay_applies (error : Thrown) (now : Z) : bool :=
  match reset_time error with
  | Some resetTimestamp => within_a_minute (serverDelay resetTimestamp now)
  | None => false
  end.

(** The pause the loop takes after a failed attempt that is retried. *)
Definition pause (cfg : ResolvedConfig) (attempt : Z) (error : Thrown) (now : Z) : Q :=
  match reset_time error with
  | Some resetTimestamp =>
      if within_a_minute (serverDelay resetTimestamp now)
      then Double.to_Q (serverDelay resetTimestamp now)
      else backoff cfg attempt
  | None => backoff cfg attempt
  end.

(** The history of [retries + 1] attempts separated by exponential
    pauses, the first of which is attempt number [attempt]. *)
Fixpoint backoff_log (cfg : ResolvedConfig) (url : string) (options : RequestInit)
    (attempt : Z) (retries : nat) : World :=
  match retries with
  | O => [FetchCall url options]
  | S retries' =>
      FetchCall url options :: Sleep (backoff cfg attempt)
        :: backoff_log cfg url options (attempt + 1) retries'
  end.






(** Requests separated by single pauses: a request, then any number of
    times a pause and a request. *)
Inductive Paced (url : string) (options : RequestInit) : World -> Prop :=
| Paced_one : Paced url options [FetchCall url options]
| Paced_more ms l :
    Paced url options l ->
    Paced url options (FetchCall url options :: Sleep ms :: l).

(** The events of a history that are requests carry this URL and these
    options. *)
Definition sends_only (url : string) (options : RequestInit) (w : World) : Prop :=
  Forall (fun e => match e with
                   | FetchCall u i => u = url /\ i = options
                   | Sleep _ => True
                   end) w.

(** *** Building the request *)

(** The values a query parameter can take. *)
Inductive ParamValue :=
| PString (s : string)
| PNumber (q : Q)
| PBoolean (b : bool).

(** [RequestOptions]; [params] keeps the order of [Object.entries]. *)
Record RequestOptions := mkRequestOptions {
  method : option Method;
  params : option (list (string * option ParamValue));
  body : option JSON;
  headers : option (gmap string string)
}.

Definition Method_eqb (a b : Method) : bool :=
  match a, b with
  | GET, GET | POST, POST | PUT, PUT | DELETE, DELETE | PATCH, PATCH => true
  | _, _ => false
  end.

(** [{ ...base, ...over }]: the properties of [over] replace those of
    [base] with the same key. *)
Definition spread (base over : gmap string string) : gmap string string :=
  over ∪ base.

Section Request.
(** The platform: the WHATWG [URL] class, the conversion of a number to
    a string, and [JSON.stringify]. *)
Context {URL : Type}.
Variable new_URL : string -> string -> JsError + URL.
Variable searchParams_set : URL -> string -> string -> URL.
Variable URL_toString : URL -> string.
Variable Number_toString : Q -> string.
Variable JSON_stringify : JSON -> string.

Variable env : Env.
Variable cfg : ResolvedConfig.

(** [String(value)] *)
Definition String_of (value : ParamValue) : string :=
  match value with
  | PString s => s
  | PNumber q => Number_toString q
  | PBoolean b => if b then "true" else "false"
  end.

(** The literal that [request] spreads the caller's headers over. *)
Definition default_headers : gmap string string :=
  <["Content-Type" := "application/json"]>
  (<["Accept" := "application/json"]>
  (<["X-API-Key" := apiKey cfg]>
  (<["User-Agent" := "scrapebadger-node/0.1.0"]> ∅))).

Definition requestHeaders (headers : gmap string string) : gmap string string :=
  spread default_headers headers.

Definition request (path : string) (options : RequestOptions) (w : World)
  : option (Thrown + JSON) * World :=
  let method := method options ?? GET in
  let headers := headers options ?? ∅ in
  match new_URL path (baseUrl cfg) with
  | inl e => (Some (inl (ThrowJs e)), w)
  | inr url =>
      let url :=
        match params options with
        | Some entries =>
            fold_left
              (fun url kv =>
                 match snd kv with
                 | Some value => searchParams_set url (fst kv) (String_of value)
                 | None => url
                 end)
              entries url
        | None => url
        end in
      let fetchOptions :=
        {| init_method := method;
           init_headers := requestHeaders headers;
           init_body :=
             match body options with
             | Some b =>
                 if truthy_JSON b && negb (Method_eqb method GET)
                 then Some (JSON_stringify b)
                 else None
             | None => None
             end |} in
      executeWithRetry env cfg (URL_toString url) fetchOptions w
  end.

End Request.

End Client.

(** ** twitter/*.ts: the resource clients

    Every method builds one request descriptor and reshapes the body of the
    answer.  Entities (tweets, users, places, ...) stay the JSON values the
    server sent. *)

Module Twitter.
Import Pagination Client.

(** [v as T[]] and [v as string]: a value of the declared type, or
    nothing. *)
Definition as_array (v : JSON) : option (list JSON) :=
  match v with JArray elements => Some elements | _ => None end.

Definition as_string (v : JSON) : option string :=
  match v with JString s => Some s | _ => None end.

(** [createPaginatedResponse(response.data ?? [], response.next_cursor)].
    Reading [data] off a [null] body throws.  [PaginatedResponse] has no
    place for a [data] that is not an array or a [next_cursor] that is not
    a string: such a body reads as one without them. *)
Definition paginated (response : JSON) : Thrown + PaginatedResponse JSON :=
  match response with
  | JNull =>
      inl (ThrowJs (mkJsError "TypeError"
             "Cannot read properties of null (reading 'data')"))
  | _ =>
      inr (createPaginatedResponse
             ((property "data" response ≫= as_array) ?? [])
             (property "next_cursor" response ≫= as_string))
  end.

Inductive QueryType := Top | Latest | Media.

Definition QueryType_string (q : QueryType) : string :=
  match q with Top => "Top" | Latest => "Latest" | Media => "Media" end.

(** [IteratorOptions & { queryType?: QueryType }] *)
Record SearchOptions := mkSearchOptions {
  iterator : IteratorOptions;
  queryType : option QueryType
}.

(** [{ ...options, cursor }] *)
Definition with_cursor (options : SearchOptions) (cursor : option string)
  : SearchOptions :=
  {| iterator := {| count := count (iterator options);
                    cursor := cursor;
                    maxItems := maxItems (iterator options) |};
     queryType := queryType options |}.

(** [CommunityMember]: the three properties the interface names, each
    with the value it has, whatever its type. *)
Record CommunityMember := mkCommunityMember {
  user : JSON;
  role : option JSON;
  joined_at : option JSON
}.

(** [item as CommunityMember]: the item read through the interface. *)
Definition as_CommunityMember (item : JSON) : CommunityMember :=
  {| user := property "user" item ?? JNull;
     role := property "role" item;
     joined_at := property "joined_at" item |}.

(** [typeof v === "object" && v !== null]: an object or an array. *)
Definition is_object (v : JSON) : bool :=
  match v with
  | JObject _ | JArray _ => true
  | _ => false
  end.

(** ["user" in item && item.user].  The operator [in] throws a
    [TypeError] when its right operand is not an object; an array is one,
    and has no [user]. *)
Definition has_user (item : JSON) : Thrown + bool :=
  match item with
  | JObject _ | JArray _ =>
      inr match property "user" item with
          | Some u => truthy_JSON u
          | None => false
          end
  | _ =>
      inl (ThrowJs (mkJsError "TypeError"
             ("Cannot use 'in' operator to search for 'user' in "
              +:+ match ToString item with inl _ => "" | inr s => s end)))
  end.

(** The callback of [getMembers]: a nested member is kept, a bare user is
    wrapped with its own role. *)
Definition member_of (item : JSON) : Thrown + CommunityMember :=
  match has_user item with
  | inl e => inl e
  | inr true => inr (as_CommunityMember item)
  | inr false =>
      inr {| user := item;
             role := property "role" item;
             joined_at := property "joined_at" item |}
  end.

(** The callback of [getModerators]: a bare user is wrapped as a
    moderator. *)
Definition moderator_of (item : JSON) : Thrown + CommunityMember :=
  match has_user item with
  | inl e => inl e
  | inr true => inr (as_CommunityMember item)
  | inr false =>
      inr {| user := item;
             role := Some (JString "moderator");
             joined_at := property "joined_at" item |}
  end.

(** [items.map(callback)]: the items are visited in order and the first
    exception of the callback ends the visit. *)
Fixpoint map_throwing {A B : Type} (callback : A -> Thrown + B) (items : list A)
  : Thrown + list B :=
  match items with
  | [] => inr []
  | item :: rest =>
      match callback item with
      | inl e => inl e
      | inr b =>
          match map_throwing callback rest with
          | inl e => inl e
          | inr bs => inr (b :: bs)
          end
      end
  end.

(** [createPaginatedResponse((response.data ?? []).map(callback),
    response.next_cursor)]: reading [data] off a [null] body throws, and so
    does calling [map] on a [data] that is not an array. *)
Definition members_page (callback : JSON -> Thrown + CommunityMember) (response : JSON)
  : Thrown + PaginatedResponse CommunityMember :=
  match response with
  | JNull =>
      inl (ThrowJs (mkJsError "TypeError"
             "Cannot read properties of null (reading 'data')"))
  | _ =>
      match non_null (property "data" response) ?? JArray [] with
      | JArray items =>
          match map_throwing callback items with
          | inl e => inl e
          | inr data =>
              inr (createPaginatedResponse data
                     (property "next_cursor" response ≫= as_string))
          end
      | _ =>
          inl (ThrowJs (mkJsError "TypeError"
                 "(response.data ?? []).map is not a function"))
      end
  end.

(** A member in the nested form of the wire. *)
Definition nested (m : CommunityMember) : JSON :=
  JObject
    (("user", user m)
     :: match role m with Some r => [("role", r)] | None => [] end
     ++ match joined_at m with Some j => [("joined_at", j)] | None => [] end).

(** [const response = await e; return k(response)]: the continuation runs
    on the value and may throw; an exception of [e] passes through. *)
Definition await {A B : Type} (r : option (Thrown + A) * World) (k : A -> Thrown + B)
  : option (Thrown + B) * World :=
  match r with
  | (Some (inr a), w) => (Some (k a), w)
  | (Some (inl e), w) => (Some (inl e), w)
  | (None, w) => (None, w)
  end.

(** The outcome of a settled promise.  The engine always settles (the
    retry loop ends), so the default is never used. *)
Definition settled {A : Type} (r : option (Thrown + A) * World) : (Thrown + A) * World :=
  match r with
  | (Some x, w) => (x, w)
  | (None, w) => (inl (ThrowJs (mkJsError "Error" "pending")), w)
  end.

Definition with_params (entries : list (string * option ParamValue)) : RequestOptions :=
  mkRequestOptions None (Some entries) None None.

Section Resources.
Context {URL : Type}.
Variable new_URL : string -> string -> JsError + URL.
Variable searchParams_set : URL -> string -> string -> URL.
Variable URL_toString : URL -> string.
Variable Number_toString : Q -> string.
Variable JSON_stringify : JSON -> string.
Variable env : Env.
Variable cfg : ResolvedConfig.

(** [this.client.request] *)
Definition client_request : string -> RequestOptions -> World
                            -> option (Thrown + JSON) * World :=
  request new_URL searchParams_set URL_toString Number_toString JSON_stringify env cfg.

(** [TweetsClient.search] *)
Definition tweets_search (query : string) (options : SearchOptions) (w : World)
  : option (Thrown + PaginatedResponse JSON) * World :=
  await (client_request "/v1/twitter/tweets/advanced_search"
           (with_params
              [("query", Some (PString query));
               ("query_type", Some (PString (QueryType_string (queryType options ?? Top))));
               ("cursor", PString <$> cursor (iterator options))]) w)
        paginated.

(** The [fetchPage] closure of [TweetsClient.searchAll]. *)
Definition tweets_searchAll_fetchPage (query : string) (options : SearchOptions)
    (w : World) (cursor : option string)
  : (Thrown + PaginatedResponse JSON) * World :=
  settled (tweets_search query (with_cursor options cursor) w).

(** [TweetsClient.searchAll]: [yield* paginate(fetchPage, options)]. *)
Definition tweets_searchAll (query : string) (options : SearchOptions)
  : Gen (T:=JSON) :=
  paginate (tweets_searchAll_fetchPage query options) (iterator options).

(** [CommunitiesClient.getMembers] *)
Definition communities_getMembers (communityId : string) (options : IteratorOptions)
    (w : World) : option (Thrown + PaginatedResponse CommunityMember) * World :=
  await (client_request ("/v1/twitter/communities/" +:+ communityId +:+ "/members")
           (with_params
              [("count", Some (PNumber (inject_Z (count options ?? 20))));
               ("cursor", PString <$> cursor options)]) w)
        (members_page member_of).

(** [CommunitiesClient.getModerators] *)
Definition communities_getModerators (communityId : string) (options : IteratorOptions)
    (w : World) : option (Thrown + PaginatedResponse CommunityMember) * World :=
  await (client_request ("/v1/twitter/communities/" +:+ communityId +:+ "/moderators")
           (with_params
              [("count", Some (PNumber (inject_Z (count options ?? 20))));
               ("cursor", PString <$> cursor options)]) w)
        (members_page moderator_of).

End Resources.

End Twitter.

(** * Scenarios

    Concrete configurations, fetchers and servers, taken from the test
    suite or built to exercise one path of the code. *)

Module Scenarios.
Import Pagination Client.

(** An environment in which the variable is set. *)
Definition env_with_key : ProcessEnv :=
  Some {[ "SCRAPEBADGER_API_KEY" := "env-api-key" ]}.

(** [new ScrapeBadger({ apiKey: "" })] *)
Definition empty_key_config : PartialConfig :=
  mkPartial (Some "") None None None None.

(** [new ScrapeBadger({ apiKey: "config-api-key", timeout: 60000 })] *)
Definition custom_config : PartialConfig :=
  mkPartial (Some "config-api-key") None (Some 60000) None None.

(** The pages of the test "yields items from multiple pages". *)
Definition three_pages : list (PaginatedResponse Z) :=
  [ mkPage [1; 2] (Some "page2") true;
    mkPage [3; 4] (Some "page3") true;
    mkPage [5] None false ].

(** The pages of the test "respects maxItems limit". *)
Definition two_pages : list (PaginatedResponse Z) :=
  [ mkPage [1; 2; 3] (Some "page2") true;
    mkPage [4; 5; 6] (Some "page3") true ].

(** A first page whose cursor is the empty string, followed by a page the
    traversal never asks for. *)
Definition empty_cursor_pages : list (PaginatedResponse Z) :=
  [ createPaginatedResponse [1] (Some "");
    createPaginatedResponse [2] None ].

(** A client with the default settings. *)
Definition default_cfg : ResolvedConfig :=
  mkResolved "test-api-key" DEFAULT_BASE_URL DEFAULT_TIMEOUT DEFAULT_MAX_RETRIES
    DEFAULT_RETRY_DELAY.

(** A client that retries once. *)
Definition one_retry_cfg : ResolvedConfig :=
  mkResolved "test-api-key" DEFAULT_BASE_URL DEFAULT_TIMEOUT 1 DEFAULT_RETRY_DELAY.

Definition get_init : RequestInit :=
  mkRequestInit GET (requestHeaders default_cfg ∅) None.

Definition json_response (status : Z) (body : JSON) : Response :=
  mkResponse status (Some "application/json; charset=utf-8") (inr body) "".

(** The current time of the scenarios: 1 000 000 s after the epoch. *)
Definition now_ms : Z := 1000000000.

(** A server that answers every request with the same response, under a
    clock that stands still. *)
Definition always (response : Response) : Env :=
  mkEnv (fun _ _ _ => Resolved response) (fun _ => now_ms).

(** The same server under a clock that reads [now]. *)
Definition at_time (now : Z) (response : Response) : Env :=
  mkEnv (fun _ _ _ => Resolved response) (fun _ => now).

Definition unauthorized : Response :=
  json_response 401 (JObject [("detail", JString "Invalid API key")]).

Definition unavailable : Response :=
  json_response 503 (JObject [("message", JString "Service unavailable")]).

(** A 403 whose message mentions a restriction, and one that does not. *)
Definition restricted : Response :=
  json_response 403
    (JObject [("detail", JString "Account restricted: policy violation");
              ("reason", JString "policy violation")]).

Definition forbidden : Response :=
  json_response 403 (JObject [("message", JString "Forbidden")]).





(** A 429 whose [reset_at] is an object with a [toString] of its own. *)
Definition odd_limit : Response :=
  json_response 429
    (JObject [("detail", JString "Too many requests");
              ("reset_at", JObject [("toString", JNumber 1)])]).

(** A 401 whose [detail] is such an object. *)
Definition odd_detail : Response :=
  json_response 401 (JObject [("detail", JObject [("toString", JNull)])]).

(** A 500 whose [detail] is a list of numbers. *)
Definition numeric_detail : Response :=
  json_response 500
    (JObject [("detail", JArray [JNumber 503; JNumber (1 # 10);
                                 JNumber 1000000000000000000000])]).

(** A 429 whose [reset_at] lies [seconds] ahead of the clock. *)
Definition rate_limited (seconds : Z) : Response :=
  json_response 429
    (JObject [("detail", JString "Too many requests");
              ("reset_at", JNumber (inject_Z (1000000 + seconds)));
              ("limit", JNumber 60); ("remaining", JNumber 0)]).

(** The caller asks for another content type. *)
Definition plain_text_headers : gmap string string :=
  {[ "Content-Type" := "text/plain" ]}.

(** A client that never enters the retry loop. *)
Definition no_attempt_cfg : ResolvedConfig :=
  mkResolved "test-api-key" DEFAULT_BASE_URL DEFAULT_TIMEOUT (-1) DEFAULT_RETRY_DELAY.

Definition trends_url : string := "https://api.scrapebadger.com/v1/twitter/trends".

Definition ok_response : Response :=
  json_response 200 (JObject [("data", JArray [JString "a"; JString "b"]);
                              ("next_cursor", JString "page2")]).

(** A transport on which every request is aborted by the timeout timer. *)
Definition always_aborted : Env :=
  mkEnv (fun _ _ _ => Rejected (mkJsError "AbortError" "This operation was aborted"))
        (fun _ => now_ms).

(** A server that is unavailable for the first request only. *)
Definition flaky : Env :=
  mkEnv (fun w _ _ => if (attempts w =? 0)%nat then Resolved unavailable
                      else Resolved ok_response)
        (fun _ => now_ms).

(** A 401 that announces JSON and carries something else. *)
Definition unparseable : Response :=
  mkResponse 401 (Some "application/json")
    (inl (mkJsError "SyntaxError" "Unexpected token < in JSON at position 0"))
    "<html>Unauthorized</html>".

(** A gateway error page. *)
Definition bad_gateway : Response :=
  mkResponse 502 (Some "text/html") 
    (inl (mkJsError "SyntaxError" "Unexpected token < in JSON at position 0"))
    "<html>Bad Gateway</html>".

(** A success that is not JSON. *)
Definition plain_ok : Response :=
  mkResponse 200 (Some "text/plain")
    (inl (mkJsError "SyntaxError" "Unexpected token O in JSON at position 0")) "OK".

(** A stand-in for the platform: a URL is a string and its list of query
    parameters. *)
Definition toy_new_URL (path base : string) : JsError + (string * list (string * string)) :=
  inr (base +:+ path, []).

Definition toy_set (url : string * list (string * string)) (key value : string)
  : string * list (string * string) :=
  (fst url, snd url ++ [(key, value)]).

Definition toy_toString (url : string * list (string * string)) : string :=
  fold_left (fun acc kv => acc +:+ "&" +:+ fst kv +:+ "=" +:+ snd kv) (snd url) (fst url).

Definition toy_Number_toString (q : Q) : string := pretty (Qnum q).

Definition toy_stringify (v : JSON) : string := "{}".

(** A community member as the server nests it. *)
Definition alice_member : Twitter.CommunityMember :=
  Twitter.mkCommunityMember (JObject [("username", JString "alice")])
    (Some (JString "admin")) None.

(** The answer to a members request: one nested member and a cursor. *)
Definition members_response : Response :=
  json_response 200
    (JObject [("data", JArray [Twitter.nested alice_member]);
              ("next_cursor", JString "m2")]).

End Scenarios.

(** * Properties *)

(** ** Truthiness *)

Lemma truthy_string_true (s : string) : truthy_string s = true <-> s <> "".
Proof. destruct s; simpl; split; congruence. Qed.

Lemma truthy_true (x : option string) :
  truthy x = true <-> exists c, x = Some c /\ c <> "".
Proof.
  destruct x as [c|]; simpl.
  - rewrite truthy_string_true. split.
    + intros H. exists c. auto.
    + intros (c' & Hc & Hne). congruence.
  - split; [discriminate | intros (c & Hc & _); discriminate].
Qed.

Lemma truthy_false (x : option string) :
  truthy x = false <-> x = None \/ x = Some "".
Proof.
  destruct x as [[|a s]|]; simpl; split; auto; try discriminate.
  intros [H|H]; discriminate.
Qed.

(** ** Client construction *)

Section Construction.
Variable process : ProcessEnv.
Variable partial : PartialConfig.

Lemma new_ScrapeBadger_fails :
  truthy (chosen_credential process partial) = false ->
  new_ScrapeBadger process partial = inl (mkJsError "Error" missing_key_message).
Proof.
  unfold new_ScrapeBadger, chosen_credential.
  destruct (match part_apiKey partial with Some k => Some k | None => _ end) as [k|];
    simpl; [|reflexivity].
  intros ->. reflexivity.
Qed.

Lemma new_ScrapeBadger_succeeds (k : string) :
  chosen_credential process partial = Some k -> k <> "" ->
  new_ScrapeBadger process partial =
    inr (mkScrapeBadger (mkBaseClient
      {| apiKey := k;
         baseUrl := part_baseUrl partial ?? DEFAULT_BASE_URL;
         timeout := part_timeout partial ?? DEFAULT_TIMEOUT;
         maxRetries := part_maxRetries partial ?? DEFAULT_MAX_RETRIES;
         retryDelay := part_retryDelay partial ?? DEFAULT_RETRY_DELAY |})).
Proof.
  unfold new_ScrapeBadger, chosen_credential. intros -> Hk.
  apply truthy_string_true in Hk.
  unfold resolveConfig, with_apiKey; simpl. rewrite Hk. reflexivity.
Qed.

(** The test of [resolveConfig] is never the one that fails: the
    constructor's own test comes first and is stronger. *)
Lemma constructor_test_first (e : JsError) :
  new_ScrapeBadger process partial = inl e -> js_message e = missing_key_message.
Proof.
  destruct (truthy (chosen_credential process partial)) eqn:Ht.
  - apply truthy_true in Ht as (k & Hk & Hne).
    rewrite (new_ScrapeBadger_succeeds k Hk Hne). discriminate.
  - rewrite (new_ScrapeBadger_fails Ht). intros [= <-]. reflexivity.
Qed.

End Construction.

(** C9, as the code has it.  The constructor takes the explicit credential
    whenever it is defined (even when it is the empty string) and the
    environment variable otherwise.  If the credential so chosen is absent
    or empty, construction fails with the missing-credential error, which is
    its first and only reachable validation; the constructor is a function
    of the configuration and the process environment alone, so nothing is
    sent before (or after) the test.  Otherwise the client holds a
    [ResolvedConfig] with that credential, in which every field the caller
    left out takes its default (https://api.scrapebadger.com, 30000 ms, 3
    retries, 1000 ms) and every field the caller gave is kept. *)
Theorem construction_resolves_credential (process : ProcessEnv) (partial : PartialConfig) :
  (part_apiKey partial <> None ->
     chosen_credential process partial = part_apiKey partial)
  /\ (part_apiKey partial = None ->
     chosen_credential process partial = getApiKeyFromEnv process)
  /\ match new_ScrapeBadger process partial with
     | inl e =>
         (chosen_credential process partial = None
          \/ chosen_credential process partial = Some "")
         /\ e = mkJsError "Error" missing_key_message
     | inr client =>
         exists k,
           chosen_credential process partial = Some k /\ k <> ""
           /\ config (baseClient client) =
                {| apiKey := k;
                   baseUrl := part_baseUrl partial ?? "https://api.scrapebadger.com";
                   timeout := part_timeout partial ?? 30000;
                   maxRetries := part_maxRetries partial ?? 3;
                   retryDelay := part_retryDelay partial ?? 1000 |}
     end.
Proof.
  split; [|split].
  - unfold chosen_credential. destruct (part_apiKey partial); congruence.
  - unfold chosen_credential. intros ->. reflexivity.
  - destruct (truthy (chosen_credential process partial)) eqn:Ht.
    + apply truthy_true in Ht as (k & Hk & Hne).
      rewrite (new_ScrapeBadger_succeeds process partial k Hk Hne).
      exists k. auto.
    + rewrite (new_ScrapeBadger_fails process partial Ht).
      apply truthy_false in Ht. auto.
Qed.

(** C9 as stated fails: with an explicit credential that is the empty
    string, the environment variable is set and yet not used, and
    construction fails although a credential is present. *)
Lemma construction_empty_explicit_key :
  part_apiKey Scenarios.empty_key_config = Some ""
  /\ getApiKeyFromEnv Scenarios.env_with_key = Some "env-api-key"
  /\ new_ScrapeBadger Scenarios.env_with_key Scenarios.empty_key_config
     = inl (mkJsError "Error" missing_key_message).
Proof. repeat split. Qed.

(** ** Pagination *)

Import Pagination.

(** C8, as the code has it.  The response built from [data] and [cursor]
    keeps both, and its [hasMore] is true if and only if a cursor was
    supplied and is not the empty string; it is computed from the cursor at
    construction and is not an argument.  In particular it is false for
    [createPaginatedResponse([], undefined)] and true for
    [createPaginatedResponse([x], "c")]. *)
Theorem createPaginatedResponse_hasMore {T : Type} (items : list T) (c : option string) :
  data (createPaginatedResponse items c) = items
  /\ nextCursor (createPaginatedResponse items c) = c
  /\ (hasMore (createPaginatedResponse items c) = true
      <-> exists s, c = Some s /\ s <> "")
  /\ hasMore (createPaginatedResponse (@nil T) None) = false
  /\ (forall x : T, hasMore (createPaginatedResponse [x] (Some "c")) = true).
Proof.
  repeat split; try reflexivity; simpl.
  - apply truthy_true.
  - apply truthy_true.
Qed.

(** C8 as stated fails: a cursor was supplied and [nextCursor] is present,
    yet [hasMore] is false. *)
Lemma createPaginatedResponse_empty_cursor :
  nextCursor (createPaginatedResponse [1] (Some "")) <> None
  /\ hasMore (createPaginatedResponse [1] (Some "")) = false.
Proof. split; [discriminate | reflexivity]. Qed.

Section PaginateProperties.
Context {T S : Type}.
Variable fetchPage : S -> option string -> (Thrown + PaginatedResponse T) * S.
Variable options : IteratorOptions.

Abbreviation run := (run fetchPage options).
Abbreviation step := (step fetchPage options).
Abbreviation Steps := (Steps fetchPage options).
Abbreviation Upstream := (Upstream fetchPage).
Abbreviation Remaining := (Remaining fetchPage).
Abbreviation Heads := (Heads fetchPage options).
Abbreviation Traversed := (Traversed fetchPage).

(** *** Runs and sequences of steps *)

Lemma run_Steps (fuel : nat) : forall g s tr g' s',
  run fuel g s = (tr, g', s') -> Steps g s tr g' s'.
Proof.
  induction fuel as [|fuel IH]; simpl; intros g s tr g' s' H.
  - injection H as <- <- <-. constructor.
  - destruct (step g s) as [[[a g1] s1]|] eqn:Hs.
    + destruct (run fuel g1 s1) as [[tr1 g2] s2] eqn:Hr.
      injection H as <- <- <-. econstructor; eauto.
    + injection H as <- <- <-. constructor.
Qed.

Lemma Steps_run g s tr s' :
  Steps g s tr Done s' ->
  forall fuel, (length tr <= fuel)%nat -> run fuel g s = (tr, Done, s').
Proof.
  intros H. remember Done as g' eqn:Hg. induction H as [g s|g s a g1 s1 tr g2 s2 Hs H IH];
    intros fuel Hf.
  - subst g. destruct fuel; reflexivity.
  - destruct fuel as [|fuel]; simpl in Hf; [lia|].
    simpl. rewrite Hs, (IH Hg fuel) by lia. reflexivity.
Qed.

Lemma Steps_app g s tr1 g1 s1 tr2 g2 s2 :
  Steps g s tr1 g1 s1 -> Steps g1 s1 tr2 g2 s2 -> Steps g s (tr1 ++ tr2) g2 s2.
Proof.
  induction 1; simpl; intros H2; [assumption|].
  econstructor; eauto.
Qed.

Lemma Steps_one g s a g1 s1 :
  step g s = Some (a, g1, s1) -> Steps g s [a] g1 s1.
Proof. intros H. econstructor; [exact H | constructor]. Qed.

(** A finished generator stays finished and does nothing more. *)
Lemma Steps_Done s tr g' s' : Steps Done s tr g' s' -> tr = [] /\ g' = Done /\ s' = s.
Proof. inversion 1; subst; [auto | discriminate]. Qed.

(** *** Traces *)

Lemma yields_app (tr1 tr2 : list (Action (T:=T))) :
  yields (tr1 ++ tr2) = yields tr1 ++ yields tr2.
Proof.
  induction tr1 as [|[c|x| |e] tr1 IH]; simpl; auto. now rewrite IH.
Qed.

Lemma fetches_app (tr1 tr2 : list (Action (T:=T))) :
  fetches (tr1 ++ tr2) = fetches tr1 ++ fetches tr2.
Proof.
  induction tr1 as [|[c|x| |e] tr1 IH]; simpl; auto. now rewrite IH.
Qed.

Lemma yields_Yield (items : list T) : yields (map Yield items) = items.
Proof. induction items; simpl; congruence. Qed.

Lemma fetches_Yield (items : list T) : fetches (map Yield items) = [].
Proof. induction items; simpl; congruence. Qed.

Lemma thrown_Yield (items : list T) (tr : list Action) :
  thrown (map Yield items ++ tr) = thrown tr.
Proof. induction items; simpl; congruence. Qed.

Lemma yields_page_trace c (ps : list (PaginatedResponse T)) :
  yields (page_trace c ps) = all_items ps.
Proof.
  revert c. induction ps as [|p ps IH]; intros c; simpl; [reflexivity|].
  unfold all_items in *. simpl. now rewrite yields_app, yields_Yield, IH.
Qed.

Lemma fetches_page_trace c (ps : list (PaginatedResponse T)) :
  fetches (page_trace c ps) = cursors c ps.
Proof.
  revert c. induction ps as [|p ps IH]; intros c; simpl; [reflexivity|].
  now rewrite fetches_app, fetches_Yield, IH.
Qed.

Lemma length_cursors c (ps : list (PaginatedResponse T)) :
  length (cursors c ps) = length ps.
Proof. revert c. induction ps; intros c; simpl; auto. Qed.

(** *** Traversal without a cap *)

Section NoCap.
Hypothesis no_cap : maxItems options = None.

Lemma cap_reached_no_cap n : cap_reached options n = false.
Proof. unfold cap_reached. now rewrite no_cap. Qed.

Lemma Heads_InPage items nc n : Heads (InPage items nc n) items nc n.
Proof. intros s. reflexivity. Qed.

Lemma Heads_Yielded items nc n : Heads (Yielded items nc n) items nc (n + 1).
Proof. intros s. simpl. now rewrite cap_reached_no_cap. Qed.

Lemma Steps_items : forall items g nc n s,
  Heads g items nc n ->
  exists g', Steps g s (map Yield items) g' s
             /\ Heads g' [] nc (n + Z.of_nat (length items)).
Proof.
  induction items as [|x rest IH]; intros g nc n s Hg.
  - exists g. split; [constructor|]. simpl. now rewrite Z.add_0_r.
  - destruct (IH (Yielded rest nc n) nc (n + 1) s (Heads_Yielded rest nc n))
      as (g' & Hsteps & Hg').
    exists g'. split.
    + simpl. econstructor; [|exact Hsteps]. now rewrite Hg.
    + replace (n + Z.of_nat (length (x :: rest)))
        with (n + 1 + Z.of_nat (length rest)) by (simpl length; lia).
      exact Hg'.
Qed.

Lemma Steps_Upstream s c ps s' :
  Upstream s c ps s' ->
  forall g n, step g s = Some (do_fetch fetchPage c n s) ->
  Steps g s (page_trace c ps ++ [Return]) Done s'.
Proof.
  induction 1 as [s c p s' Hf Hnc|s c p s1 ps s' Hf Hnc Hup IH]; intros g n Hg;
    unfold do_fetch in Hg; rewrite Hf in Hg.
  - destruct (Steps_items (data p) _ (nextCursor p) n s' (Heads_InPage _ _ _))
      as (g' & Hitems & Hg').
    simpl. rewrite app_nil_r. econstructor; [exact Hg|].
    eapply Steps_app; [exact Hitems|].
    apply Steps_one. rewrite Hg'. simpl.
    apply truthy_false in Hnc. now rewrite Hnc.
  - destruct (Steps_items (data p) _ (nextCursor p) n s1 (Heads_InPage _ _ _))
      as (g' & Hitems & Hg').
    simpl. rewrite <- app_assoc. econstructor; [exact Hg|].
    eapply Steps_app; [exact Hitems|].
    apply (IH g' (n + Z.of_nat (length (data p)))).
    rewrite Hg'. simpl. apply truthy_true in Hnc. now rewrite Hnc.
Qed.

Lemma Traversed_fetch c n s a g1 s1 tr s' :
  do_fetch fetchPage c n s = (a, g1, s1) ->
  Traversed g1 s1 tr s' ->
  exists ps, Upstream s c ps s' /\ a :: tr = page_trace c ps ++ [Return].
Proof.
  unfold do_fetch. destruct (fetchPage s c) as [[e|p] s2] eqn:Hf;
    intros [= <- <- <-]; simpl; [tauto|].
  intros (ps & Hrem & ->). exists (p :: ps). split.
  - unfold Pagination.Remaining in Hrem.
    destruct (truthy (nextCursor p)) eqn:Ht.
    + eapply Upstream_next; eauto. now apply truthy_true.
    + destruct Hrem as [-> ->]. eapply Upstream_last; eauto. now apply truthy_false.
  - simpl. now rewrite <- app_assoc.
Qed.

Lemma Traversed_head items nc n s a g1 s1 tr s' :
  for_head fetchPage items nc n s = (a, g1, s1) ->
  Traversed g1 s1 tr s' ->
  exists ps, Remaining s nc ps s'
             /\ a :: tr = map Yield items ++ page_trace nc ps ++ [Return].
Proof.
  destruct items as [|x rest]; simpl.
  - unfold Pagination.Remaining. destruct (truthy nc) eqn:Ht.
    + intros Hf Htr. exact (Traversed_fetch _ _ _ _ _ _ _ _ Hf Htr).
    + intros [= <- <- <-] [-> ->]. exists []. auto.
  - intros [= <- <- <-] (ps & Hrem & ->). exists ps. auto.
Qed.

Lemma Steps_Traversed g s tr g' s' :
  Steps g s tr g' s' -> g' = Done -> thrown tr = None -> Traversed g s tr s'.
Proof.
  induction 1 as [g s|g s a g1 s1 tr g2 s2 Hs H IH]; intros Hg Hth.
  - subst g. simpl. auto.
  - assert (Htr : Traversed g1 s1 tr s2).
    { apply IH; [assumption|]. destruct a; simpl in Hth; congruence. }
    destruct g as [|items nc n|items nc n|e|]; simpl in Hs.
    + injection Hs as Hs. exact (Traversed_fetch _ _ _ _ _ _ _ _ Hs Htr).
    + injection Hs as Hs. exact (Traversed_head _ _ _ _ _ _ _ _ _ Hs Htr).
    + rewrite cap_reached_no_cap in Hs. injection Hs as Hs.
      exact (Traversed_head _ _ _ _ _ _ _ _ _ Hs Htr).
    + injection Hs as <- <- <-. simpl in Hth. discriminate.
    + discriminate.
Qed.

End NoCap.

(** *** Traversal under a cap of at least one item *)

Section Cap.
Variable m : Z.
Hypothesis cap : maxItems options = Some m.

Lemma cap_reached_cap n : cap_reached options n = (m <=? n).
Proof. unfold cap_reached. now rewrite cap. Qed.

Lemma Heads_Yielded_below items nc n :
  n + 1 < m -> Heads (Yielded items nc n) items nc (n + 1).
Proof.
  intros H s. simpl. rewrite cap_reached_cap.
  now replace (m <=? n + 1) with false by (symmetry; apply Z.leb_gt; lia).
Qed.

(** Within a page: either the page is exhausted below the cap, or the
    traversal returns right after the item that reaches it. *)
Lemma Steps_items_cap : forall items g nc n s,
  n < m ->
  Heads g items nc n ->
  (Z.of_nat (length items) < m - n
   /\ exists g', Steps g s (map Yield items) g' s
                 /\ Heads g' [] nc (n + Z.of_nat (length items)))
  \/ (m - n <= Z.of_nat (length items)
      /\ Steps g s (map Yield (firstn (Z.to_nat (m - n)) items) ++ [Return]) Done s).
Proof.
  induction items as [|x rest IH]; intros g nc n s Hn Hg.
  - left. split; [simpl; lia|]. exists g. split; [constructor|].
    simpl. now rewrite Z.add_0_r.
  - destruct (Z.eq_dec (n + 1) m) as [Heq|Hne].
    + right. split; [simpl length; lia|].
      replace (Z.to_nat (m - n)) with 1%nat by lia. simpl.
      econstructor; [now rewrite Hg|].
      apply Steps_one. simpl. rewrite cap_reached_cap.
      now replace (m <=? n + 1) with true by (symmetry; apply Z.leb_le; lia).
    + destruct (IH (Yielded rest nc n) nc (n + 1) s ltac:(lia)
                  (Heads_Yielded_below rest nc n ltac:(lia)))
        as [(Hlen & g' & Hsteps & Hg') | (Hlen & Hsteps)].
      * left. split; [simpl length; lia|]. exists g'. split.
        -- simpl. econstructor; [now rewrite Hg | exact Hsteps].
        -- replace (n + Z.of_nat (length (x :: rest)))
             with (n + 1 + Z.of_nat (length rest)) by (simpl length; lia).
           exact Hg'.
      * right. split; [simpl length; lia|].
        replace (Z.to_nat (m - n)) with (Datatypes.S (Z.to_nat (m - (n + 1)))) by lia.
        simpl. econstructor; [now rewrite Hg | exact Hsteps].
Qed.

Lemma Steps_Upstream_cap s c ps s' :
  Upstream s c ps s' ->
  forall g n, n < m -> step g s = Some (do_fetch fetchPage c n s) ->
  exists tr s'',
    Steps g s tr Done s''
    /\ yields tr = firstn (Z.to_nat (m - n)) (all_items ps)
    /\ fetches tr = firstn (pages_needed (Z.to_nat (m - n)) ps) (cursors c ps).
Proof.
  induction 1 as [s c p s' Hf Hnc|s c p s1 ps s' Hf Hnc Hup IH]; intros g n Hn Hg;
    unfold do_fetch in Hg; rewrite Hf in Hg.
  - destruct (Steps_items_cap (data p) _ (nextCursor p) n s' Hn (Heads_InPage _ _ _))
      as [(Hlen & g' & Hitems & Hg') | (Hlen & Hitems)].
    + exists (Fetch c :: map Yield (data p) ++ [Return]), s'. split; [|split].
      * econstructor; [exact Hg|]. eapply Steps_app; [exact Hitems|].
        apply Steps_one. rewrite Hg'. simpl.
        apply truthy_false in Hnc. now rewrite Hnc.
      * simpl. rewrite yields_app, yields_Yield. unfold all_items. simpl.
        rewrite !app_nil_r. symmetry. apply firstn_all2. lia.
      * simpl. rewrite fetches_app, fetches_Yield. simpl.
        destruct (Z.to_nat (m - n) <=? length (data p))%nat; reflexivity.
    + exists (Fetch c :: map Yield (firstn (Z.to_nat (m - n)) (data p)) ++ [Return]), s'.
      split; [|split].
      * econstructor; [exact Hg | exact Hitems].
      * simpl. rewrite yields_app, yields_Yield. unfold all_items. simpl.
        now rewrite !app_nil_r.
      * simpl. rewrite fetches_app, fetches_Yield. simpl.
        destruct (Z.to_nat (m - n) <=? length (data p))%nat; reflexivity.
  - destruct (Steps_items_cap (data p) _ (nextCursor p) n s1 Hn (Heads_InPage _ _ _))
      as [(Hlen & g' & Hitems & Hg') | (Hlen & Hitems)].
    + destruct (IH g' (n + Z.of_nat (length (data p))) ltac:(lia))
        as (tr & s'' & Hsteps & Hy & Hfe).
      { rewrite Hg'. simpl. apply truthy_true in Hnc. now rewrite Hnc. }
      exists (Fetch c :: map Yield (data p) ++ tr), s''. split; [|split].
      * econstructor; [exact Hg|]. eapply Steps_app; [exact Hitems | exact Hsteps].
      * simpl. rewrite yields_app, yields_Yield, Hy. unfold all_items. simpl.
        rewrite firstn_app. rewrite (firstn_all2 (data p)) by lia.
        do 2 f_equal. lia.
      * simpl. rewrite fetches_app, fetches_Yield, Hfe. simpl.
        replace (Z.to_nat (m - n) <=? length (data p))%nat with false
          by (symmetry; apply Nat.leb_gt; lia).
        simpl. do 3 f_equal. lia.
    + exists (Fetch c :: map Yield (firstn (Z.to_nat (m - n)) (data p)) ++ [Return]), s1.
      split; [|split].
      * econstructor; [exact Hg | exact Hitems].
      * simpl. rewrite yields_app, yields_Yield. unfold all_items. simpl.
        rewrite app_nil_r, firstn_app.
        replace (Z.to_nat (m - n) - length (data p))%nat with 0%nat by lia.
        simpl. now rewrite app_nil_r.
      * simpl. rewrite fetches_app, fetches_Yield. simpl.
        now replace (Z.to_nat (m - n) <=? length (data p))%nat with true
          by (symmetry; apply Nat.leb_le; lia).
Qed.

End Cap.

End PaginateProperties.

(** C6, as the code has it.  With no item cap, for every page fetcher:
    whenever the fetcher, asked first with no cursor and then with the
    cursor of each page, serves the pages [ps], the last of which is the
    first page whose cursor is absent or the empty string, the traversal
    asks for each page exactly once, with these cursors, yields every item
    of every page in order, and then returns; and a traversal that returns
    has gone through exactly such pages, so it ends exactly at the first
    page whose cursor is absent or empty.  In particular pages of sizes
    2, 2 and 1 give 5 items and 3 calls of the fetcher. *)
Theorem paginate_follows_cursors {T S : Type}
    (fetchPage : S -> option string -> (Thrown + PaginatedResponse T) * S)
    (options : IteratorOptions) (s : S) :
  maxItems options = None ->
  (forall ps s', Upstream fetchPage s None ps s' ->
     (forall fuel, (length (page_trace None ps) < fuel)%nat ->
        run fetchPage options fuel (paginate fetchPage options) s
        = (page_trace None ps ++ [Return], Done, s'))
     /\ yields (page_trace None ps ++ [Return]) = all_items ps
     /\ fetches (page_trace None ps ++ [Return]) = cursors None ps
     /\ length (fetches (page_trace None ps ++ [Return])) = length ps
     /\ (map (fun p => length (data p)) ps = [2; 2; 1]%nat ->
         length (yields (page_trace None ps ++ [Return])) = 5%nat
         /\ length (fetches (page_trace None ps ++ [Return])) = 3%nat))
  /\ (forall fuel tr s',
        run fetchPage options fuel (paginate fetchPage options) s = (tr, Done, s') ->
        thrown tr = None ->
        exists ps, Upstream fetchPage s None ps s' /\ tr = page_trace None ps ++ [Return]).
Proof.
  intros no_cap. split.
  - intros ps s' Hup.
    assert (Hy : yields (page_trace None ps ++ [Return]) = all_items ps).
    { rewrite yields_app, yields_page_trace. simpl. apply app_nil_r. }
    assert (Hf : fetches (page_trace None ps ++ [Return]) = cursors None ps).
    { rewrite fetches_app, fetches_page_trace. simpl. apply app_nil_r. }
    repeat split; auto.
    + intros fuel Hfuel. apply Steps_run.
      * apply (Steps_Upstream fetchPage options no_cap s None ps s' Hup Start 0).
        reflexivity.
      * rewrite length_app. simpl. lia.
    + rewrite Hf. apply length_cursors.
    + rewrite Hy. unfold all_items.
      destruct ps as [|p1 [|p2 [|p3 [|p4 ps]]]]; try discriminate.
      simpl in H. injection H as H1 H2 H3. simpl.
      rewrite !length_app, H1, H2, H3. reflexivity.
    + rewrite Hf, length_cursors. 
      rewrite <- (length_map (fun p => length (data p)) ps), H. reflexivity.
  - intros fuel tr s' Hrun Hth.
    apply run_Steps in Hrun.
    exact (Steps_Traversed fetchPage options no_cap _ _ _ _ _ Hrun eq_refl Hth).
Qed.

(** X15.  [collectAll] over an uncapped traversal of pages served upstream
    returns all their items, in order. *)
Lemma collectAll_paginate {T S : Type}
    (fetchPage : S -> option string -> (Thrown + PaginatedResponse T) * S)
    (options : IteratorOptions) (s : S) ps s' (fuel : nat) :
  maxItems options = None ->
  Upstream fetchPage s None ps s' ->
  (length (page_trace None ps) < fuel)%nat ->
  collectAll fetchPage options fuel (paginate fetchPage options) s
  = Some (inr (all_items ps)).
Proof.
  intros no_cap Hup Hfuel. unfold collectAll.
  rewrite (Steps_run fetchPage options _ _ _ _
             (Steps_Upstream fetchPage options no_cap s None ps s' Hup Start 0 eq_refl))
    by (rewrite length_app; simpl; lia).
  assert (Hth : forall c, thrown (page_trace c ps ++ [Return (T:=T)]) = None).
  { clear. induction ps as [|p ps IH]; intros c; [reflexivity|].
    simpl. rewrite <- app_assoc, thrown_Yield. apply IH. }
  rewrite Hth, yields_app, yields_page_trace. simpl. now rewrite app_nil_r.
Qed.

(** The tests "yields items from single page" and "handles empty first
    page". *)
Example paginate_single_page :
  collectAll scripted no_options 10 (paginate scripted no_options)
    [mkPage [1; 2; 3] None false]
  = Some (inr [1; 2; 3]).
Proof. reflexivity. Qed.

Example paginate_empty_first_page :
  run scripted no_options 10 (paginate scripted no_options) [mkPage (@nil Z) None false]
  = ([Fetch None; Return], Done, []).
Proof. reflexivity. Qed.

(** The test "yields items from multiple pages", as an instance of C6. *)
Lemma paginate_follows_cursors_witness :
  maxItems no_options = None
  /\ run scripted no_options 10 (paginate scripted no_options) Scenarios.three_pages
     = ([Fetch None; Yield 1; Yield 2; Fetch (Some "page2"); Yield 3; Yield 4;
         Fetch (Some "page3"); Yield 5; Return], Done, []).
Proof.
  split; [reflexivity|].
  destruct (paginate_follows_cursors scripted no_options Scenarios.three_pages eq_refl)
    as [Hfwd _].
  destruct (Hfwd Scenarios.three_pages []) as [Hrun _].
  - eapply Upstream_next; [reflexivity | eexists; split; [reflexivity | discriminate] |].
    eapply Upstream_next; [reflexivity | eexists; split; [reflexivity | discriminate] |].
    eapply Upstream_last; [reflexivity | left; reflexivity].
  - apply (Hrun 10%nat). simpl. lia.
Defined.

(** C6 as stated fails: the first page carries a cursor (the empty
    string), it is not absent, and a second page exists; the traversal
    nevertheless returns after the first page. *)
Lemma paginate_stops_at_empty_cursor :
  (exists p rest, Scenarios.empty_cursor_pages = p :: rest
                  /\ nextCursor p <> None /\ rest <> [])
  /\ run scripted no_options 10 (paginate scripted no_options) Scenarios.empty_cursor_pages
     = ([Fetch None; Yield 1; Return], Done, [createPaginatedResponse [2] None]).
Proof.
  split; [|reflexivity].
  eexists _, _. split; [reflexivity|]. split; discriminate.
Qed.

(** *** The empty cursor *)

Section EmptyCursor.
Context {T S : Type}.
Variable fetchPage : S -> option string -> (Thrown + PaginatedResponse T) * S.
Variable options : IteratorOptions.

Abbreviation run := (run fetchPage options).
Abbreviation step := (step fetchPage options).

(** Past a page whose cursor is the empty string the generator does, step
    for step, what it does past a page without a cursor: it yields or
    returns, and leaves the fetcher alone. *)
Lemma step_SameButCursor (g g0 : Gen) (s : S) :
  SameButCursor g g0 ->
  match step g s, step g0 s with
  | Some (a, g', s'), Some (a0, g0', s0') =>
      a = a0 /\ s' = s /\ s0' = s /\ SameButCursor g' g0' /\ fetches [a] = []
  | None, None => g = Done /\ g0 = Done
  | _, _ => False
  end.
Proof.
  destruct 1 as [items n|items n|]; simpl.
  - destruct items as [|x rest]; simpl; repeat split; constructor.
  - destruct (cap_reached options (n + 1)); [repeat split; constructor|].
    destruct items as [|x rest]; simpl; repeat split; constructor.
  - auto.
Qed.

Lemma run_SameButCursor (fuel : nat) : forall (g g0 : Gen) (s : S),
  SameButCursor g g0 ->
  match run fuel g s, run fuel g0 s with
  | (tr, g', s'), (tr0, g0', s0') =>
      tr = tr0 /\ s' = s /\ s0' = s /\ SameButCursor g' g0' /\ fetches tr = []
  end.
Proof.
  induction fuel as [|fuel IH]; intros g g0 s Hsame; simpl; [auto|].
  pose proof (step_SameButCursor g g0 s Hsame) as Hstep.
  destruct (step g s) as [[[a g1] s1]|], (step g0 s) as [[[a0 g01] s01]|];
    try contradiction.
  - destruct Hstep as (<- & -> & -> & Hsame1 & Hfetch).
    specialize (IH g1 g01 s Hsame1).
    destruct (run fuel g1 s) as [[tr g2] s2], (run fuel g01 s) as [[tr0 g02] s02].
    destruct IH as (<- & -> & -> & Hsame2 & Hfetch2).
    repeat split; auto.
    change (fetches ([a] ++ tr) = []). now rewrite fetches_app, Hfetch, Hfetch2.
  - repeat split; auto.
Qed.

(** The page after which the cursor is falsy is the last: the traversal is
    over once its items are visited. *)
Lemma run_last_page_ends : forall (items : list T) (nc : option string) (n : Z) (s : S)
    (g : Gen) (fuel : nat),
  truthy nc = false ->
  g = InPage items nc n \/ g = Yielded items nc n ->
  (length items < fuel)%nat ->
  snd (fst (run fuel g s)) = Done.
Proof.
  induction items as [|x rest IH]; intros nc n s g fuel Hnc Hg Hfuel;
    (destruct fuel as [|fuel]; [simpl in Hfuel; lia|]).
  - destruct Hg as [-> | ->]; simpl; [rewrite Hnc|].
    + destruct fuel; reflexivity.
    + destruct (cap_reached options (n + 1)); [|rewrite Hnc]; destruct fuel; reflexivity.
  - simpl in Hfuel. destruct Hg as [-> | ->]; simpl.
    + specialize (IH nc n s (Yielded rest nc n) fuel Hnc (or_intror eq_refl)).
      destruct (run fuel (Yielded rest nc n) s) as [[tr g'] s']. simpl in *.
      apply IH. lia.
    + destruct (cap_reached options (n + 1)).
      * destruct fuel; reflexivity.
      * simpl.
        specialize (IH nc (n + 1) s (Yielded rest nc (n + 1)) fuel Hnc (or_intror eq_refl)).
        destruct (run fuel (Yielded rest nc (n + 1)) s) as [[tr g'] s']. simpl in *.
        apply IH. lia.
Qed.

End EmptyCursor.

(** C10.  A response built with the empty string as cursor keeps it as
    [nextCursor] and has [hasMore] false.  After a page whose [nextCursor]
    is the empty string the generator stands where a missing cursor would
    put it, and from there it does exactly what it does after a page
    without a cursor: the same actions, none of them a call of the fetcher,
    the fetcher left as it was, and it is over once the items of the page
    have been visited. *)
Theorem empty_cursor_treated_as_absent {T S : Type}
    (fetchPage : S -> option string -> (Thrown + PaginatedResponse T) * S)
    (options : IteratorOptions) (items : list T) :
  (hasMore (createPaginatedResponse items (Some "")) = false
   /\ nextCursor (createPaginatedResponse items (Some "")) = Some "")
  /\ (forall c n s p s1,
        fetchPage s c = (inr p, s1) -> nextCursor p = Some "" ->
        do_fetch fetchPage c n s = (Fetch c, InPage (data p) (Some "") n, s1))
  /\ (forall (n : Z) (s : S) (fuel : nat),
        match run fetchPage options fuel (InPage items (Some "") n) s,
              run fetchPage options fuel (InPage items None n) s with
        | (tr, g, s'), (tr0, g0, s0) =>
            tr = tr0 /\ s' = s0 /\ (g = Done <-> g0 = Done)
            /\ fetches tr = [] /\ s' = s
            /\ ((length items < fuel)%nat -> g = Done)
        end).
Proof.
  split; [split; reflexivity|]. split.
  - intros c n s p s1 Hf Hnc. unfold do_fetch. now rewrite Hf, Hnc.
  - intros n s fuel.
    pose proof (run_SameButCursor fetchPage options fuel _ _ s (Same_InPage items n)) as H.
    pose proof (run_last_page_ends fetchPage options items (Some "") n s _ fuel
                  eq_refl (or_introl eq_refl)) as Hend.
    destruct (run fetchPage options fuel (InPage items (Some "") n) s) as [[tr g] s'].
    destruct (run fetchPage options fuel (InPage items None n) s) as [[tr0 g0] s0].
    destruct H as (-> & -> & -> & Hsame & Hfetch). simpl in Hend.
    repeat split; auto.
    + intros ->. inversion Hsame. reflexivity.
    + intros ->. inversion Hsame. reflexivity.
Qed.

(** C7 at [maxItems = 0], on the pages of the test "respects maxItems
    limit": the traversal yields the first item before it looks at the cap,
    so one item comes out where the cap allows none. *)
Theorem paginate_maxItems_zero_yields_one :
  run scripted (mkOptions None None (Some 0)) 10
      (paginate scripted (mkOptions None None (Some 0))) Scenarios.two_pages
  = ([Fetch None; Yield 1; Return], Done,
     [mkPage [4; 5; 6] (Some "page3") true])
  /\ Z.of_nat (length (yields [Fetch None; Yield 1; Return]))
     <> Z.min 0 (Z.of_nat (length (all_items Scenarios.two_pages))).
Proof. split; [reflexivity | discriminate]. Qed.

(** X14.  Under a cap of at least one item the cap is exact: over pages [ps]
    served upstream the traversal returns having yielded the first [m]
    items, all of them when there are fewer, and having asked for no page
    beyond the one in which the cap was reached. *)
Lemma paginate_cap_positive {T S : Type}
    (fetchPage : S -> option string -> (Thrown + PaginatedResponse T) * S)
    (options : IteratorOptions) (m : Z) (s : S) ps s' :
  maxItems options = Some m -> 1 <= m ->
  Upstream fetchPage s None ps s' ->
  exists tr s'',
    (forall fuel, (length tr <= fuel)%nat ->
       run fetchPage options fuel (paginate fetchPage options) s = (tr, Done, s''))
    /\ yields tr = firstn (Z.to_nat m) (all_items ps)
    /\ Z.of_nat (length (yields tr)) = Z.min m (Z.of_nat (length (all_items ps)))
    /\ fetches tr = firstn (pages_needed (Z.to_nat m) ps) (cursors None ps).
Proof.
  intros Hcap Hm Hup.
  destruct (Steps_Upstream_cap fetchPage options m Hcap s None ps s' Hup Start 0
              ltac:(lia) eq_refl) as (tr & s'' & Hsteps & Hy & Hf).
  rewrite Z.sub_0_r in Hy, Hf.
  exists tr, s''. split; [|split; [|split]]; auto.
  - intros fuel Hfuel. now apply Steps_run.
  - rewrite Hy, length_firstn. lia.
Qed.

(** The test "respects maxItems limit" itself: [maxItems = 4] over pages of
    3 and 3 items yields the items 1 to 4 and asks for two pages only. *)
Example paginate_maxItems_four :
  run scripted (mkOptions None None (Some 4)) 10
      (paginate scripted (mkOptions None None (Some 4))) Scenarios.two_pages
  = ([Fetch None; Yield 1; Yield 2; Yield 3; Fetch (Some "page2"); Yield 4; Return],
     Done, []).
Proof. reflexivity. Qed.

(** ** The request engine *)

Import Client.

(** *** Strings *)







(** *** Case *)








(** *** Classification of responses *)

Lemma JSON_null_dec (v : JSON) : {v = JNull} + {v <> JNull}.
Proof. destruct v; [left; reflexivity|right; discriminate ..]. Qed.

Section Classification.
Variable response : Response.
Variable data : JSON.
Hypothesis body_read : parse_body response = inr data.


Lemma handleResponse_ok : ok response = true -> handleResponse response = inr data.
Proof. intros Hok. unfold handleResponse. now rewrite body_read, Hok. Qed.

Lemma handleResponse_null :
  ok response = false -> data = JNull ->
  handleResponse response
  = inl (ThrowJs (mkJsError "TypeError"
           "Cannot read properties of null (reading 'detail')")).
Proof. intros Hok ->. unfold handleResponse. now rewrite body_read, Hok. Qed.

(** What is thrown for a body that is not [null], by status. *)
Lemma handleResponse_error :
  ok response = false -> data <> JNull ->
  let message :=
    non_null (property "detail" data) ?? non_null (property "message" data)
    ?? JString "Request failed" in
  let st := status response in
  handleResponse response
  = if st =? 401 then inl (throw_new message AuthenticationError)
    else if st =? 402 then
      inl (throw_new message
             (fun msg => InsufficientCreditsError msg (property "credits_balance" data)))
    else if st =? 403 then
      match message with
      | JString message =>
          if includes "restricted" (toLowerCase message)
          then inl (ThrowSdk (AccountRestrictedError message (property "reason" data)))
          else inl (ThrowSdk (AuthenticationError message))
      | _ => inl (ThrowJs (mkJsError "TypeError" "message.toLowerCase is not a function"))
      end
    else if st =? 404 then inl (throw_new message (fun msg => NotFoundError msg None None))
    else if st =? 422 then
      inl (throw_new message (fun msg => ValidationError msg (property "errors" data)))
    else if st =? 429 then
      inl (throw_new message
             (fun msg => RateLimitError msg (property "reset_at" data)
                           (property "limit" data) (property "remaining" data)))
    else if 500 <=? st then inl (throw_new message (fun msg => ServerError msg st))
    else inl (throw_new message ScrapeBadgerError).
Proof.
  intros Hok Hnull. unfold handleResponse. rewrite body_read, Hok.
  destruct data; [contradiction| | | | |]; reflexivity.
Qed.

End Classification.




(** The two 403 responses of the design document. *)
Example handleResponse_restricted :
  handleResponse Scenarios.restricted
  = inl (ThrowSdk (AccountRestrictedError "Account restricted: policy violation"
                     (Some (JString "policy violation")))).
Proof. reflexivity. Qed.

Example handleResponse_forbidden :
  handleResponse Scenarios.forbidden = inl (ThrowSdk (AuthenticationError "Forbidden")).
Proof. reflexivity. Qed.

(** A message that cannot be converted to a string: the constructor of
    the error throws. *)
Example handleResponse_odd_detail :
  handleResponse Scenarios.odd_detail = inl (ThrowJs not_primitive).
Proof. reflexivity. Qed.

(** Numbers in a message are printed as JavaScript prints them. *)
Example handleResponse_numeric_detail :
  handleResponse Scenarios.numeric_detail
  = inl (ThrowSdk (ServerError "503,0.1,1e+21" 500)).
Proof. vm_compute. reflexivity. Qed.

(** *** Request headers *)

Section Headers.
Variable cfg : ResolvedConfig.
Variable headers : gmap string string.

Lemma requestHeaders_caller (k v : string) :
  headers !! k = Some v -> requestHeaders cfg headers !! k = Some v.
Proof.
  intros H. unfold requestHeaders, spread.
  apply lookup_union_Some_l. exact H.
Qed.

Lemma requestHeaders_default (k : string) :
  headers !! k = None ->
  requestHeaders cfg headers !! k = default_headers cfg !! k.
Proof.
  intros H. unfold requestHeaders, spread. now apply lookup_union_r.
Qed.

Lemma default_headers_lookup :
  default_headers cfg !! "Content-Type" = Some "application/json"
  /\ default_headers cfg !! "Accept" = Some "application/json"
  /\ default_headers cfg !! "X-API-Key" = Some (apiKey cfg)
  /\ default_headers cfg !! "User-Agent" = Some "scrapebadger-node/0.1.0".
Proof. unfold default_headers. repeat split; by simplify_map_eq. Qed.

End Headers.

(** *** Histories *)

Lemma attempts_app (w1 w2 : World) : attempts (w1 ++ w2) = (attempts w1 + attempts w2)%nat.
Proof. unfold attempts. now rewrite List.filter_app, length_app. Qed.

Lemma sleeps_app (w1 w2 : World) : sleeps (w1 ++ w2) = sleeps w1 ++ sleeps w2.
Proof.
  induction w1 as [|[u i|ms] w1 IH]; simpl; auto. now rewrite IH.
Qed.

Lemma attempts_backoff_log cfg url options attempt retries :
  attempts (backoff_log cfg url options attempt retries) = S retries.
Proof.
  revert attempt. induction retries as [|k IH]; intros attempt; [reflexivity|].
  change (S (attempts (backoff_log cfg url options (attempt + 1) k)) = S (S k)).
  now rewrite IH.
Qed.

Lemma sleeps_backoff_log cfg url options attempt retries :
  sleeps (backoff_log cfg url options attempt retries)
  = map (fun k => backoff cfg (attempt + Z.of_nat k)) (seq 0 retries).
Proof.
  revert attempt. induction retries as [|k IH]; intros attempt; [reflexivity|].
  cbn [backoff_log sleeps seq map]. rewrite IH, Z.add_0_r. f_equal.
  rewrite <- seq_shift, map_map. apply map_ext. intros i. f_equal. lia.
Qed.

(** *** One iteration of the retry loop *)

Section Loop.
Variable env : Env.
Variable cfg : ResolvedConfig.
Variable url : string.
Variable options : RequestInit.

Abbreviation try_attempt := (try_attempt env cfg url options).
Abbreviation retry_loop := (retry_loop env cfg url options).

Lemma try_attempt_world (w : World) :
  snd (try_attempt w) = w ++ [FetchCall url options].
Proof.
  unfold Client.try_attempt, fetchWithTimeout.
  destruct (fetch env w url options) as [response|error]; [reflexivity|].
  destruct (String.eqb (js_name error) "AbortError"); reflexivity.
Qed.

Lemma try_attempt_pair (w : World) :
  try_attempt w = (fst (try_attempt w), w ++ [FetchCall url options]).
Proof. rewrite <- try_attempt_world. apply surjective_pairing. Qed.

(** The classes the loop rethrows at once are the fatal kinds. *)
Lemma rethrown_at_once_transient (error : Thrown) :
  rethrown_at_once error = negb (transient error).
Proof. destruct error as [[]|]; reflexivity. Qed.

(** A successful attempt ends the loop. *)
Lemma retry_loop_success fuel attempt lastError w result :
  attempt <= maxRetries cfg ->
  fst (try_attempt w) = inr result ->
  retry_loop (S fuel) attempt lastError w
  = (Some (inr result), w ++ [FetchCall url options]).
Proof.
  intros Hle Htry. simpl.
  replace (attempt <=? maxRetries cfg) with true by (symmetry; apply Z.leb_le; lia).
  rewrite try_attempt_pair, Htry. reflexivity.
Qed.

(** An error of a fatal kind ends the loop, whatever attempts remain. *)
Lemma retry_loop_fatal fuel attempt lastError w error :
  attempt <= maxRetries cfg ->
  fst (try_attempt w) = inl error ->
  transient error = false ->
  retry_loop (S fuel) attempt lastError w
  = (Some (inl error), w ++ [FetchCall url options]).
Proof.
  intros Hle Htry Hfatal. simpl.
  replace (attempt <=? maxRetries cfg) with true by (symmetry; apply Z.leb_le; lia).
  rewrite try_attempt_pair, Htry, rethrown_at_once_transient, Hfatal. reflexivity.
Qed.

(** A transient error at the last attempt is what the loop throws. *)
Lemma retry_loop_last fuel lastError w error :
  fst (try_attempt w) = inl error ->
  transient error = true ->
  retry_loop (S fuel) (maxRetries cfg) lastError w
  = (Some (inl error), w ++ [FetchCall url options]).
Proof.
  intros Htry Htr. simpl.
  rewrite Z.leb_refl, try_attempt_pair, Htry, rethrown_at_once_transient, Htr.
  simpl. rewrite Z.eqb_refl. reflexivity.
Qed.

(** A transient error at an earlier attempt is followed by a pause and the
    next attempt, provided the reset timestamp of a rate limit, if the loop
    computes with one, can be turned into a number. *)
Lemma retry_loop_retry fuel attempt lastError w error :
  attempt < maxRetries cfg ->
  fst (try_attempt w) = inl error ->
  transient error = true ->
  readable error = true ->
  retry_loop (S fuel) attempt lastError w
  = retry_loop fuel (attempt + 1) (Some error)
      (w ++ [FetchCall url options;
             Sleep (pause cfg attempt error
                      (Date_now env (w ++ [FetchCall url options])))]).
Proof.
  intros Hlt Htry Htr Hread. cbn [Client.retry_loop].
  replace (attempt <=? maxRetries cfg) with true by (symmetry; apply Z.leb_le; lia).
  rewrite try_attempt_pair, Htry, rethrown_at_once_transient, Htr.
  replace (attempt =? maxRetries cfg) with false by (symmetry; apply Z.eqb_neq; lia).
  cbn [negb].
  replace (w ++ [FetchCall url options; Sleep _])
    with ((w ++ [FetchCall url options]) ++
          [Sleep (pause cfg attempt error (Date_now env (w ++ [FetchCall url options])))])
    by now rewrite <- app_assoc.
  unfold pause, reset_time, backoff, serverDelay, within_a_minute.
  unfold readable in Hread. unfold reset_timestamp in *.
  destruct error as [[m|m|m [ra|] lim rem|m t i|m e|m c|m t|m c|m r]|e]; try reflexivity.
  destruct (truthy_JSON ra); [|reflexivity].
  destruct (ToNumber ra) as [e|x]; [discriminate|].
  destruct (Double.ltb _ _ && Double.ltb _ _); reflexivity.
Qed.

(** When it cannot, the subtraction throws inside the [catch] clause and
    the loop ends there, with that exception. *)
Lemma retry_loop_unreadable fuel attempt lastError w error :
  attempt < maxRetries cfg ->
  fst (try_attempt w) = inl error ->
  transient error = true ->
  readable error = false ->
  exists e,
    retry_loop (S fuel) attempt lastError w
    = (Some (inl (ThrowJs e)), w ++ [FetchCall url options]).
Proof.
  intros Hlt Htry Htr Hread. cbn [Client.retry_loop].
  replace (attempt <=? maxRetries cfg) with true by (symmetry; apply Z.leb_le; lia).
  rewrite try_attempt_pair, Htry, rethrown_at_once_transient, Htr.
  replace (attempt =? maxRetries cfg) with false by (symmetry; apply Z.eqb_neq; lia).
  cbn [negb]. unfold readable, reset_timestamp in Hread.
  destruct error as [[m|m|m [ra|] lim rem|m t i|m e|m c|m t|m c|m r]|e];
    try discriminate.
  destruct (truthy_JSON ra); [|discriminate].
  destruct (ToNumber ra) as [e|x]; [|discriminate].
  exists e. reflexivity.
Qed.

(** When no server delay applies the pause is the exponential backoff. *)
Lemma pause_backoff attempt error now :
  server_delay_applies error now = false ->
  pause cfg attempt error now = backoff cfg attempt.
Proof.
  unfold pause, server_delay_applies.
  destruct (reset_time error); [|reflexivity]. now intros ->.
Qed.

(** *** The loop ends *)

(** With one unit of fuel per remaining attempt the loop always ends. *)
Lemma retry_loop_total : forall fuel attempt lastError w,
  maxRetries cfg + 1 - attempt <= Z.of_nat fuel ->
  fst (retry_loop fuel attempt lastError w) <> None.
Proof.
  induction fuel as [|fuel IH]; intros attempt lastError w Hfuel;
    cbn [Client.retry_loop].
  - replace (attempt <=? maxRetries cfg) with false
      by (symmetry; apply Z.leb_gt; lia).
    discriminate.
  - destruct (attempt <=? maxRetries cfg); [|discriminate].
    destruct (Client.try_attempt env cfg url options w) as [[error|result] w1];
      [|discriminate].
    destruct (rethrown_at_once error); [discriminate|].
    destruct (attempt =? maxRetries cfg); [discriminate|].
    assert (Hnext : forall last w', fst (retry_loop fuel (attempt + 1) last w') <> None)
      by (intros; apply IH; lia).
    destruct error as [[m|m|m [ra|] lim rem|m t i|m e|m c|m t|m c|m r]|e];
      try apply Hnext.
    destruct (truthy_JSON ra); [|apply Hnext].
    destruct (ToNumber ra) as [e|x]; [discriminate|].
    destruct (Double.ltb _ _ && Double.ltb _ _); apply Hnext.
Qed.

Lemma executeWithRetry_total (w : World) :
  fst (executeWithRetry env cfg url options w) <> None.
Proof. unfold executeWithRetry. apply retry_loop_total. lia. Qed.

(** Every request of the loop is the one it was given. *)
Lemma retry_loop_sends_only : forall fuel attempt lastError w,
  exists l, snd (retry_loop fuel attempt lastError w) = w ++ l
            /\ sends_only url options l.
Proof.
  assert (Hnil : forall w : World, exists l, w = w ++ l /\ sends_only url options l).
  { intros w. exists []. split; [now rewrite app_nil_r | constructor]. }
  assert (Hone : forall w : World,
             exists l, w ++ [FetchCall url options] = w ++ l /\ sends_only url options l).
  { intros w. exists [FetchCall url options]. split; [reflexivity|].
    constructor; [split; reflexivity | constructor]. }
  induction fuel as [|fuel IH]; intros attempt lastError w; cbn [Client.retry_loop].
  - destruct (attempt <=? maxRetries cfg); apply Hnil.
  - destruct (attempt <=? maxRetries cfg); [|apply Hnil].
    rewrite try_attempt_pair.
    destruct (fst (try_attempt w)) as [error|result]; [|apply Hone].
    destruct (rethrown_at_once error); [apply Hone|].
    destruct (attempt =? maxRetries cfg); [apply Hone|].
    assert (Hnext : forall last ms,
      exists l, snd (retry_loop fuel (attempt + 1) last
                       ((w ++ [FetchCall url options]) ++ [Sleep ms])) = w ++ l
                /\ sends_only url options l).
    { intros last ms. destruct (IH (attempt + 1) last
        ((w ++ [FetchCall url options]) ++ [Sleep ms])) as (l & -> & Hl).
      exists ([FetchCall url options; Sleep ms] ++ l). split.
      - now rewrite <- !app_assoc.
      - apply Forall_app. split; [|exact Hl].
        repeat constructor. }
    destruct error as [[m|m|m [ra|] lim rem|m t i|m e|m c|m t|m c|m r]|e];
      try apply Hnext.
    destruct (truthy_JSON ra); [|apply Hnext].
    destruct (ToNumber ra) as [e|x]; [apply Hone|].
    destruct (Double.ltb _ _ && Double.ltb _ _); apply Hnext.
Qed.

(** An iteration that is entered sends the request. *)
Lemma retry_loop_starts fuel attempt lastError w :
  attempt <= maxRetries cfg ->
  exists rest,
    snd (retry_loop (S fuel) attempt lastError w) = w ++ FetchCall url options :: rest.
Proof.
  intros Hle.
  destruct (fst (try_attempt w)) as [error|result] eqn:Htry.
  2:{ exists []. now rewrite (retry_loop_success _ _ _ _ _ Hle Htry). }
  destruct (transient error) eqn:Htr.
  2:{ exists []. now rewrite (retry_loop_fatal _ _ _ _ _ Hle Htry Htr). }
  destruct (Z.eq_dec attempt (maxRetries cfg)) as [->|Hne].
  { exists []. now rewrite (retry_loop_last _ _ _ _ Htry Htr). }
  destruct (readable error) eqn:Hread.
  2:{ destruct (retry_loop_unreadable fuel attempt lastError w error
                  ltac:(lia) Htry Htr Hread) as (e & ->).
      now exists []. }
  rewrite (retry_loop_retry fuel attempt lastError w error ltac:(lia) Htry Htr Hread).
  match goal with
  | |- context [retry_loop fuel (attempt + 1) ?last (w ++ [_; ?pause])] =>
      destruct (retry_loop_sends_only fuel (attempt + 1) last
                  (w ++ [FetchCall url options; pause])) as (l & -> & _);
      exists (pause :: l)
  end.
  now rewrite <- app_assoc.
Qed.

(** A transient error at an attempt that is not the last: the pause is
    taken and the request is sent again. *)
Lemma retry_loop_goes_on fuel attempt lastError w error :
  attempt < maxRetries cfg ->
  fst (try_attempt w) = inl error ->
  transient error = true ->
  readable error = true ->
  exists rest,
    snd (retry_loop (S (S fuel)) attempt lastError w)
    = w ++ [FetchCall url options;
            Sleep (pause cfg attempt error (Date_now env (w ++ [FetchCall url options])));
            FetchCall url options] ++ rest.
Proof.
  intros Hlt Htry Htr Hread.
  rewrite (retry_loop_retry (S fuel) attempt lastError w error Hlt Htry Htr Hread).
  destruct (retry_loop_starts fuel (attempt + 1) (Some error)
              (w ++ [FetchCall url options;
                     Sleep (pause cfg attempt error
                              (Date_now env (w ++ [FetchCall url options])))])
              ltac:(lia)) as (rest & ->).
  exists rest. now rewrite <- app_assoc.
Qed.

End Loop.

(** *** Fatal errors *)

(** C1.  When the response to the first attempt is classified as an
    Authentication, NotFound, Validation, InsufficientCredits or
    AccountRestricted error, the engine throws that very error after this
    one attempt, without a pause, whatever [maxRetries] allows.  (There is
    a response to classify only if the loop is entered, that is, if
    [maxRetries] is not negative.) *)
Theorem fatal_error_not_retried (env : Env) (cfg : ResolvedConfig) (url : string)
    (options : RequestInit) (w : World) (response : Response) (e : SdkError) :
  0 <= maxRetries cfg ->
  fetch env w url options = Resolved response ->
  handleResponse response = inl (ThrowSdk e) ->
  fatal_kind e = true ->
  executeWithRetry env cfg url options w
    = (Some (inl (ThrowSdk e)), w ++ [FetchCall url options])
  /\ attempts (w ++ [FetchCall url options]) = (attempts w + 1)%nat
  /\ sleeps (w ++ [FetchCall url options]) = sleeps w.
Proof.
  intros Hmax Hfetch Hclass Hfatal. split; [|split].
  - unfold executeWithRetry.
    replace (Z.to_nat (maxRetries cfg + 1)) with (S (Z.to_nat (maxRetries cfg))) by lia.
    apply retry_loop_fatal; [lia | |].
    + unfold try_attempt, fetchWithTimeout. rewrite Hfetch. exact Hclass.
    + simpl. now rewrite Hfatal.
  - rewrite attempts_app. reflexivity.
  - rewrite sleeps_app. apply app_nil_r.
Qed.

(** An always-401 server and the default three retries: one request. *)
Lemma fatal_error_not_retried_witness :
  0 <= maxRetries Scenarios.default_cfg
  /\ executeWithRetry (Scenarios.always Scenarios.unauthorized) Scenarios.default_cfg
       "https://api.scrapebadger.com/v1/twitter/tweets/tweet/1" Scenarios.get_init []
     = (Some (inl (ThrowSdk (AuthenticationError "Invalid API key"))),
        [FetchCall "https://api.scrapebadger.com/v1/twitter/tweets/tweet/1"
           Scenarios.get_init]).
Proof.
  assert (H : 0 <= maxRetries Scenarios.default_cfg)
    by (unfold Scenarios.default_cfg, DEFAULT_MAX_RETRIES; simpl; lia).
  split; [exact H|].
  apply (fatal_error_not_retried (Scenarios.always Scenarios.unauthorized)
           Scenarios.default_cfg _ Scenarios.get_init [] Scenarios.unauthorized
           (AuthenticationError "Invalid API key") H eq_refl eq_refl eq_refl).
Defined.

(** *** Transient errors *)

Section Exhaustion.
Variable env : Env.
Variable cfg : ResolvedConfig.
Variable url : string.
Variable options : RequestInit.

(** Every attempt fails with a transient error, none of them a rate limit
    with a reset timestamp that cannot be turned into a number. *)
Hypothesis always_transient : forall w,
  exists error, fst (try_attempt env cfg url options w) = inl error
                /\ transient error = true /\ readable error = true.

Lemma retry_loop_exhausts : forall (k : nat) attempt lastError w,
  maxRetries cfg - attempt = Z.of_nat k ->
  exists error w_last,
    retry_loop env cfg url options (S k) attempt lastError w
      = (Some (inl error), w_last ++ [FetchCall url options])
    /\ fst (try_attempt env cfg url options w_last) = inl error
    /\ attempts (w_last ++ [FetchCall url options]) = (attempts w + S k)%nat
    /\ length (sleeps (w_last ++ [FetchCall url options])) = (length (sleeps w) + k)%nat
    /\ ((forall w' error',
           fst (try_attempt env cfg url options w') = inl error' ->
           server_delay_applies error'
             (Date_now env (w' ++ [FetchCall url options])) = false) ->
        w_last ++ [FetchCall url options]
        = w ++ backoff_log cfg url options attempt k).
Proof.
  induction k as [|k IH]; intros attempt lastError w Hk;
    destruct (always_transient w) as (error & Htry & Htr & Hread).
  - replace attempt with (maxRetries cfg) by lia.
    exists error, w. rewrite (retry_loop_last env cfg url options _ _ _ _ Htry Htr).
    rewrite attempts_app, sleeps_app. cbn [sleeps backoff_log].
    rewrite app_nil_r. repeat split; auto.
  - assert (Hlt : attempt < maxRetries cfg) by lia.
    rewrite (retry_loop_retry env cfg url options _ _ _ _ _ Hlt Htry Htr Hread).
    destruct (IH (attempt + 1) (Some error)
                (w ++ [FetchCall url options;
                       Sleep (pause cfg attempt error
                                (Date_now env (w ++ [FetchCall url options])))])
                ltac:(lia))
      as (error' & w_last & -> & Hlast & Hatt & Hsl & Hlog).
    exists error', w_last. split; [reflexivity|]. split; [exact Hlast|].
    rewrite Hatt, Hsl, attempts_app, sleeps_app, length_app.
    change (attempts [FetchCall url options; Sleep _]) with 1%nat.
    cbn [sleeps length].
    split; [lia|]. split; [lia|].
    intros Hno. rewrite (Hlog Hno), (pause_backoff cfg _ _ _ (Hno _ _ Htry)).
    now rewrite <- app_assoc.
Qed.

End Exhaustion.

(** C2, as the code has it.  When every attempt fails with a transient
    error (none of them a rate limit whose reset timestamp cannot be turned
    into a number: on such a one the loop itself throws), the engine makes
    exactly [maxRetries + 1] attempts with [maxRetries] pauses between them
    and then throws the error of the last attempt itself.  When moreover no
    error is a rate limit whose reset lies less than a minute ahead (an
    always-503 server, say), the history is attempt, pause [retryDelay],
    attempt, pause [2 * retryDelay], ..., attempt: the pause after attempt
    [k] (counted from zero) is [retryDelay * 2 ^ k]. *)
Theorem transient_failures_exhaust_retries (env : Env) (cfg : ResolvedConfig)
    (url : string) (options : RequestInit) (w : World) :
  0 <= maxRetries cfg ->
  (forall w', exists error,
      fst (try_attempt env cfg url options w') = inl error
      /\ transient error = true /\ readable error = true) ->
  exists error w_last,
    executeWithRetry env cfg url options w
      = (Some (inl error), w_last ++ [FetchCall url options])
    /\ fst (try_attempt env cfg url options w_last) = inl error
    /\ attempts (w_last ++ [FetchCall url options])
       = (attempts w + Z.to_nat (maxRetries cfg + 1))%nat
    /\ length (sleeps (w_last ++ [FetchCall url options]))
       = (length (sleeps w) + Z.to_nat (maxRetries cfg))%nat
    /\ ((forall w' error',
           fst (try_attempt env cfg url options w') = inl error' ->
           server_delay_applies error'
             (Date_now env (w' ++ [FetchCall url options])) = false) ->
        w_last ++ [FetchCall url options]
        = w ++ backoff_log cfg url options 0 (Z.to_nat (maxRetries cfg))
        /\ sleeps (w_last ++ [FetchCall url options])
           = sleeps w ++
             map (fun k => inject_Z (retryDelay cfg * 2 ^ Z.of_nat k))
               (seq 0 (Z.to_nat (maxRetries cfg)))).
Proof.
  intros Hmax Hall.
  destruct (retry_loop_exhausts env cfg url options Hall
              (Z.to_nat (maxRetries cfg)) 0 None w ltac:(lia))
    as (error & w_last & Hrun & Hlast & Hatt & Hsl & Hlog).
  exists error, w_last. unfold executeWithRetry.
  replace (Z.to_nat (maxRetries cfg + 1)) with (S (Z.to_nat (maxRetries cfg))) by lia.
  split; [exact Hrun|]. split; [exact Hlast|]. split; [exact Hatt|].
  split; [exact Hsl|].
  intros Hno. split; [now apply Hlog|].
  rewrite (Hlog Hno), sleeps_app, sleeps_backoff_log. reflexivity.
Qed.

(** An always-503 server and the default configuration: four attempts,
    with pauses of 1, 2 and 4 seconds. *)
Lemma transient_failures_exhaust_retries_witness :
  0 <= maxRetries Scenarios.default_cfg
  /\ (forall w', exists error,
        fst (try_attempt (Scenarios.always Scenarios.unavailable) Scenarios.default_cfg
               "https://api.scrapebadger.com/v1/twitter/trends" Scenarios.get_init w')
        = inl error /\ transient error = true /\ readable error = true)
  /\ exists error w_last,
       executeWithRetry (Scenarios.always Scenarios.unavailable) Scenarios.default_cfg
         "https://api.scrapebadger.com/v1/twitter/trends" Scenarios.get_init []
       = (Some (inl error),
          w_last ++ [FetchCall "https://api.scrapebadger.com/v1/twitter/trends"
                       Scenarios.get_init])
       /\ error = ThrowSdk (ServerError "Service unavailable" 503)
       /\ attempts (w_last ++ [FetchCall "https://api.scrapebadger.com/v1/twitter/trends"
                                 Scenarios.get_init]) = 4%nat
       /\ sleeps (w_last ++ [FetchCall "https://api.scrapebadger.com/v1/twitter/trends"
                               Scenarios.get_init]) = [1000; 2000; 4000]%Q.
Proof.
  assert (Hmax : 0 <= maxRetries Scenarios.default_cfg)
    by (unfold Scenarios.default_cfg, DEFAULT_MAX_RETRIES; simpl; lia).
  assert (Hall : forall w', exists error,
        fst (try_attempt (Scenarios.always Scenarios.unavailable) Scenarios.default_cfg
               "https://api.scrapebadger.com/v1/twitter/trends" Scenarios.get_init w')
        = inl error /\ transient error = true /\ readable error = true).
  { intros w'. exists (ThrowSdk (ServerError "Service unavailable" 503)).
    repeat split. }
  split; [exact Hmax|]. split; [exact Hall|].
  destruct (transient_failures_exhaust_retries _ _ _ _ [] Hmax Hall)
    as (error & w_last & Hrun & Hlast & Hatt & _ & Hlog).
  exists error, w_last. split; [exact Hrun|]. split.
  - change (@inl Thrown JSON (ThrowSdk (ServerError "Service unavailable" 503))
            = inl error) in Hlast.
    now injection Hlast as <-.
  - split; [exact Hatt|]. apply Hlog. intros w' error' H'.
    change (@inl Thrown JSON (ThrowSdk (ServerError "Service unavailable" 503))
            = inl error') in H'.
    injection H' as <-. reflexivity.
Defined.

(** C2 as stated fails: every attempt fails with a transient error, a rate
    limit whose reset lies 10 seconds ahead, and the pause between the two
    attempts is 10 seconds, not [retryDelay]. *)
Lemma rate_limit_pause_is_not_exponential :
  (forall w', exists error,
      fst (try_attempt (Scenarios.always (Scenarios.rate_limited 10))
             Scenarios.one_retry_cfg "https://api.scrapebadger.com/v1/twitter/trends"
             Scenarios.get_init w')
      = inl error /\ transient error = true)
  /\ exists result w ms,
       executeWithRetry (Scenarios.always (Scenarios.rate_limited 10))
         Scenarios.one_retry_cfg "https://api.scrapebadger.com/v1/twitter/trends"
         Scenarios.get_init [] = (result, w)
       /\ attempts w = 2%nat
       /\ sleeps w = [ms]
       /\ (ms == 10000)%Q
       /\ ~ (ms == inject_Z (retryDelay Scenarios.one_retry_cfg * 2 ^ 0))%Q.
Proof.
  split.
  - intros w'. eexists. split; reflexivity.
  - eexists _, _, _. split; [vm_compute; reflexivity|].
    split; [reflexivity|]. split; [reflexivity|]. split; [reflexivity|].
    discriminate.
Qed.

(** *** The rate-limit override *)










(** The two rate-limit cases of the design document, run to the end with
    one retry: a reset 10 seconds ahead gives a pause of 10 seconds, a reset
    90 seconds ahead the exponential value. *)
Example rate_limit_ten_seconds :
  sleeps (snd (executeWithRetry (Scenarios.always (Scenarios.rate_limited 10))
                 Scenarios.one_retry_cfg "https://api.scrapebadger.com/v1/twitter/trends"
                 Scenarios.get_init []))
  = [10000%Q].
Proof. vm_compute. reflexivity. Qed.

Example rate_limit_ninety_seconds :
  sleeps (snd (executeWithRetry (Scenarios.always (Scenarios.rate_limited 90))
                 Scenarios.one_retry_cfg "https://api.scrapebadger.com/v1/twitter/trends"
                 Scenarios.get_init []))
  = [1000%Q].
Proof. vm_compute. reflexivity. Qed.

(** The delay is the one doubles give.  With the clock one millisecond
    further, [now / 1000] is not a double, and the pause is not 9999
    milliseconds but the double 9998.999999952503... *)
Example rate_limit_rounded :
  sleeps (snd (executeWithRetry
                 (Scenarios.at_time 1000000001 (Scenarios.rate_limited 10))
                 Scenarios.one_retry_cfg "https://api.scrapebadger.com/v1/twitter/trends"
                 Scenarios.get_init []))
  = [10736344498125 # 1073741824].
Proof. vm_compute. reflexivity. Qed.

(** A reset timestamp sent as a string is converted as the subtraction
    converts it. *)
Example rate_limit_string_timestamp :
  sleeps (snd (executeWithRetry
                 (Scenarios.always
                    (Scenarios.json_response 429
                       (JObject [("reset_at", JString "1000010")])))
                 Scenarios.one_retry_cfg "https://api.scrapebadger.com/v1/twitter/trends"
                 Scenarios.get_init []))
  = [10000%Q].
Proof. vm_compute. reflexivity. Qed.

(** *** The headers of a request *)

(** C5, as the code has it.  The headers handed to [fetch] are the caller's
    headers spread over the defaults (Content-Type, Accept, X-API-Key,
    User-Agent): every header the caller supplies goes out with the
    caller's value, Content-Type and Accept included; every other header
    goes out with its default, if it has one; the credential header is
    always present, with the configured API key unless the caller supplies
    it.  Every request that [request] sends carries exactly these
    headers. *)
Theorem request_headers_merge {URL : Type}
    (new_URL : string -> string -> JsError + URL)
    (searchParams_set : URL -> string -> string -> URL)
    (URL_toString : URL -> string) (Number_toString : Q -> string)
    (JSON_stringify : JSON -> string)
    (env : Env) (cfg : ResolvedConfig) (path : string) (options : RequestOptions)
    (w : World) :
  let caller := headers options ?? ∅ in
  let sent := requestHeaders cfg caller in
  (forall k v, caller !! k = Some v -> sent !! k = Some v)
  /\ (forall k, caller !! k = None -> sent !! k = default_headers cfg !! k)
  /\ (default_headers cfg !! "Content-Type" = Some "application/json"
      /\ default_headers cfg !! "Accept" = Some "application/json"
      /\ default_headers cfg !! "X-API-Key" = Some (apiKey cfg)
      /\ default_headers cfg !! "User-Agent" = Some "scrapebadger-node/0.1.0")
  /\ is_Some (sent !! "X-API-Key")
  /\ exists l,
       snd (request new_URL searchParams_set URL_toString Number_toString
              JSON_stringify env cfg path options w) = w ++ l
       /\ Forall (fun e => match e with
                           | FetchCall _ init => init_headers init = sent
                           | Sleep _ => True
                           end) l.
Proof.
  intros caller sent.
  split; [exact (requestHeaders_caller cfg caller)|].
  split; [exact (requestHeaders_default cfg caller)|].
  split; [exact (default_headers_lookup cfg)|].
  split.
  - destruct (caller !! "X-API-Key") as [v|] eqn:Hk.
    + exists v. now apply requestHeaders_caller.
    + exists (apiKey cfg). unfold sent.
      rewrite (requestHeaders_default cfg caller _ Hk).
      apply default_headers_lookup.
  - unfold request. destruct (new_URL path (baseUrl cfg)) as [e|url].
    + exists []. split; [now rewrite app_nil_r | constructor].
    + unfold executeWithRetry.
      match goal with
      | |- context [retry_loop env cfg ?u ?o ?f ?a ?last w] =>
          destruct (retry_loop_sends_only env cfg u o f a last w) as (l & -> & Hl)
      end.
      exists l. split; [reflexivity|].
      eapply Forall_impl; [exact Hl|].
      intros [u i|ms]; [|auto]. intros [_ ->]. reflexivity.
Qed.

(** C5 as stated fails: the caller's Content-Type replaces the engine's. *)
Lemma caller_overrides_content_type :
  requestHeaders Scenarios.default_cfg Scenarios.plain_text_headers !! "Content-Type"
    = Some "text/plain"
  /\ "text/plain" <> "application/json".
Proof. split; [reflexivity | discriminate]. Qed.

(** * Further properties *)

(** ** The retry loop as a whole *)

Section LoopBounds.
Variable env : Env.
Variable cfg : ResolvedConfig.
Variable url : string.
Variable options : RequestInit.

(** With one unit of fuel per remaining attempt, the history of the loop
    is a run of requests separated by single pauses. *)
Lemma retry_loop_paced : forall fuel attempt lastError w,
  maxRetries cfg + 1 - attempt <= Z.of_nat fuel ->
  attempt <= maxRetries cfg ->
  exists l,
    snd (retry_loop env cfg url options fuel attempt lastError w) = w ++ l
    /\ Paced url options l
    /\ Z.of_nat (attempts l) <= maxRetries cfg + 1 - attempt.
Proof.
  assert (Hone : forall w : World, exists l,
            w ++ [FetchCall url options] = w ++ l
            /\ Paced url options l /\ attempts l = 1%nat).
  { intros w. exists [FetchCall url options]. repeat split. constructor. }
  induction fuel as [|fuel IH]; intros attempt lastError w Hfuel Hle; [lia|].
  destruct (fst (try_attempt env cfg url options w)) as [error|result] eqn:Htry.
  2:{ rewrite (retry_loop_success env cfg url options _ _ _ _ _ Hle Htry).
      destruct (Hone w) as (l & -> & Hp & Ha). exists l. simpl.
      rewrite Ha. repeat split; auto; lia. }
  destruct (transient error) eqn:Htr.
  2:{ rewrite (retry_loop_fatal env cfg url options _ _ _ _ _ Hle Htry Htr).
      destruct (Hone w) as (l & -> & Hp & Ha). exists l. simpl.
      rewrite Ha. repeat split; auto; lia. }
  destruct (Z.eq_dec attempt (maxRetries cfg)) as [->|Hne].
  { rewrite (retry_loop_last env cfg url options _ _ _ _ Htry Htr).
    destruct (Hone w) as (l & -> & Hp & Ha). exists l. simpl.
    rewrite Ha. repeat split; auto; lia. }
  assert (Hlt : attempt < maxRetries cfg) by lia.
  destruct (readable error) eqn:Hread.
  2:{ destruct (retry_loop_unreadable env cfg url options fuel attempt lastError w error
                  Hlt Htry Htr Hread) as (e & ->).
      destruct (Hone w) as (l & -> & Hp & Ha). exists l. simpl.
      rewrite Ha. repeat split; auto; lia. }
  rewrite (retry_loop_retry env cfg url options _ _ _ _ _ Hlt Htry Htr Hread).
  match goal with
  | |- context [retry_loop env cfg url options fuel (attempt + 1) ?last
                  (w ++ [_; Sleep ?ms])] =>
      destruct (IH (attempt + 1) last (w ++ [FetchCall url options; Sleep ms])
                  ltac:(lia) ltac:(lia))
        as (l & -> & Hp & Ha);
      exists (FetchCall url options :: Sleep ms :: l)
  end.
  split; [now rewrite <- app_assoc|]. split; [now constructor|].
  change (attempts (FetchCall url options :: Sleep _ :: l)) with (S (attempts l)).
  lia.
Qed.

End LoopBounds.

(** X1.  Whatever the server does, the engine settles after at most
    [maxRetries + 1] requests.  With a negative [maxRetries] it sends
    nothing.  Otherwise its history is a request, then any number of times
    a pause and a request: every request is the one it was given, there is
    exactly one pause between two consecutive requests, none before the
    first request and none after the last. *)
Theorem executeWithRetry_bounded (env : Env) (cfg : ResolvedConfig) (url : string)
    (options : RequestInit) (w : World) :
  fst (executeWithRetry env cfg url options w) <> None
  /\ exists l,
       snd (executeWithRetry env cfg url options w) = w ++ l
       /\ Z.of_nat (attempts l) <= Z.max 0 (maxRetries cfg + 1)
       /\ (maxRetries cfg < 0 -> l = [])
       /\ (0 <= maxRetries cfg -> Paced url options l).
Proof.
  split; [apply executeWithRetry_total|].
  unfold executeWithRetry.
  destruct (Z.lt_ge_cases (maxRetries cfg) 0) as [Hneg|Hpos].
  - exists []. rewrite app_nil_r. split; [|split; [|split]].
    + destruct (Z.to_nat (maxRetries cfg + 1)); cbn [retry_loop];
        replace (0 <=? maxRetries cfg) with false by (symmetry; apply Z.leb_gt; lia);
        reflexivity.
    + change (attempts []) with 0%nat. lia.
    + reflexivity.
    + lia.
  - destruct (retry_loop_paced env cfg url options
                (Z.to_nat (maxRetries cfg + 1)) 0 None w ltac:(lia) Hpos)
      as (l & Hl & Hp & Ha).
    exists l. split; [exact Hl|]. split; [lia|]. split; [lia|]. auto.
Qed.

(** X2.  With a negative [maxRetries] the loop is never entered: no
    request is sent, and the generic error of the engine is thrown. *)
Theorem negative_maxRetries_sends_nothing (env : Env) (cfg : ResolvedConfig)
    (url : string) (options : RequestInit) (w : World) :
  maxRetries cfg < 0 ->
  executeWithRetry env cfg url options w
  = (Some (inl (ThrowSdk (ScrapeBadgerError "Request failed after retries"))), w).
Proof.
  intros Hneg. unfold executeWithRetry.
  destruct (Z.to_nat (maxRetries cfg + 1)); cbn [retry_loop];
    replace (0 <=? maxRetries cfg) with false by (symmetry; apply Z.leb_gt; lia);
    reflexivity.
Qed.

Lemma negative_maxRetries_sends_nothing_witness :
  maxRetries Scenarios.no_attempt_cfg < 0
  /\ executeWithRetry (Scenarios.always Scenarios.ok_response) Scenarios.no_attempt_cfg
       Scenarios.trends_url Scenarios.get_init []
     = (Some (inl (ThrowSdk (ScrapeBadgerError "Request failed after retries"))), []).
Proof.
  assert (H : maxRetries Scenarios.no_attempt_cfg < 0) by (simpl; lia).
  split; [exact H|].
  exact (negative_maxRetries_sends_nothing _ _ _ _ [] H).
Defined.

(** X3.  A successful first attempt is the only one: the body is returned
    after one request and no pause, whatever [maxRetries] allows. *)
Theorem first_success_returns (env : Env) (cfg : ResolvedConfig) (url : string)
    (options : RequestInit) (w : World) (response : Response) (data : JSON) :
  0 <= maxRetries cfg ->
  fetch env w url options = Resolved response ->
  handleResponse response = inr data ->
  executeWithRetry env cfg url options w
  = (Some (inr data), w ++ [FetchCall url options]).
Proof.
  intros Hmax Hfetch Hok. unfold executeWithRetry.
  replace (Z.to_nat (maxRetries cfg + 1)) with (S (Z.to_nat (maxRetries cfg))) by lia.
  apply retry_loop_success; [lia|].
  unfold try_attempt, fetchWithTimeout. now rewrite Hfetch.
Qed.

Lemma first_success_returns_witness :
  0 <= maxRetries Scenarios.default_cfg
  /\ executeWithRetry (Scenarios.always Scenarios.ok_response) Scenarios.default_cfg
       Scenarios.trends_url Scenarios.get_init []
     = (Some (inr (JObject [("data", JArray [JString "a"; JString "b"]);
                            ("next_cursor", JString "page2")])),
        [FetchCall Scenarios.trends_url Scenarios.get_init]).
Proof.
  assert (H : 0 <= maxRetries Scenarios.default_cfg)
    by (unfold Scenarios.default_cfg, DEFAULT_MAX_RETRIES; simpl; lia).
  split; [exact H|].
  exact (first_success_returns (Scenarios.always Scenarios.ok_response)
           Scenarios.default_cfg Scenarios.trends_url Scenarios.get_init []
           Scenarios.ok_response _ H eq_refl eq_refl).
Defined.

(** X4.  A transient failure followed by a success: the engine pauses
    once, sends the request again and returns the body of the second
    answer; the error of the first attempt is not reported.  (The failure
    is not a rate limit whose reset timestamp cannot be turned into a
    number: on such a one the loop itself throws.) *)
Theorem retry_recovers (env : Env) (cfg : ResolvedConfig) (url : string)
    (options : RequestInit) (w : World) (error : Thrown) (data : JSON) :
  1 <= maxRetries cfg ->
  fst (try_attempt env cfg url options w) = inl error ->
  transient error = true ->
  readable error = true ->
  let ms := pause cfg 0 error (Date_now env (w ++ [FetchCall url options])) in
  fst (try_attempt env cfg url options (w ++ [FetchCall url options; Sleep ms]))
    = inr data ->
  executeWithRetry env cfg url options w
  = (Some (inr data),
     w ++ [FetchCall url options; Sleep ms; FetchCall url options]).
Proof.
  intros Hmax Hfail Htr Hread ms Hok. unfold executeWithRetry.
  replace (Z.to_nat (maxRetries cfg + 1))
    with (S (S (Z.to_nat (maxRetries cfg - 1)))) by lia.
  assert (H0 : 0 < maxRetries cfg) by lia.
  assert (H1 : 0 + 1 <= maxRetries cfg) by lia.
  rewrite (retry_loop_retry env cfg url options _ _ _ _ _ H0 Hfail Htr Hread).
  rewrite (retry_loop_success env cfg url options _ _ _ _ _ H1 Hok).
  now rewrite <- app_assoc.
Qed.

Lemma retry_recovers_witness :
  1 <= maxRetries Scenarios.default_cfg
  /\ executeWithRetry Scenarios.flaky Scenarios.default_cfg
       Scenarios.trends_url Scenarios.get_init []
     = (Some (inr (JObject [("data", JArray [JString "a"; JString "b"]);
                            ("next_cursor", JString "page2")])),
        [FetchCall Scenarios.trends_url Scenarios.get_init; Sleep 1000;
         FetchCall Scenarios.trends_url Scenarios.get_init]).
Proof.
  assert (H : 1 <= maxRetries Scenarios.default_cfg)
    by (unfold Scenarios.default_cfg, DEFAULT_MAX_RETRIES; simpl; lia).
  split; [exact H|].
  exact (retry_recovers Scenarios.flaky Scenarios.default_cfg Scenarios.trends_url
           Scenarios.get_init [] (ThrowSdk (ServerError "Service unavailable" 503))
           _ H eq_refl eq_refl eq_refl eq_refl).
Defined.

(** ** Failures of the transport *)

(** X5.  When every call of [fetch] is rejected with the same error, the
    engine makes [maxRetries + 1] attempts separated by the exponential
    pauses and then throws: a [TimeoutError] that names and carries the
    configured timeout when the rejection is the [AbortError] of the
    timeout timer, and the rejection itself, unwrapped, otherwise. *)
Theorem rejected_fetch_exhausts (env : Env) (cfg : ResolvedConfig) (url : string)
    (options : RequestInit) (w : World) (rejection : JsError) :
  0 <= maxRetries cfg ->
  (forall w', fetch env w' url options = Rejected rejection) ->
  executeWithRetry env cfg url options w
  = (Some (inl (if String.eqb (js_name rejection) "AbortError"
                then ThrowSdk (TimeoutError
                                 ("Request timed out after " +:+ pretty (timeout cfg)
                                  +:+ "ms") (timeout cfg))
                else ThrowJs rejection)),
     w ++ backoff_log cfg url options 0 (Z.to_nat (maxRetries cfg))).
Proof.
  intros Hmax Hrej.
  set (thrown := if String.eqb (js_name rejection) "AbortError"
                 then ThrowSdk (TimeoutError
                                  ("Request timed out after " +:+ pretty (timeout cfg)
                                   +:+ "ms") (timeout cfg))
                 else ThrowJs rejection).
  assert (Htry : forall w', fst (try_attempt env cfg url options w') = inl thrown).
  { intros w'. unfold try_attempt, fetchWithTimeout, thrown. rewrite Hrej.
    destruct (String.eqb (js_name rejection) "AbortError"); reflexivity. }
  assert (Htr : transient thrown = true /\ readable thrown = true).
  { unfold thrown. destruct (String.eqb _ _); split; reflexivity. }
  destruct (retry_loop_exhausts env cfg url options
              (fun w' => ex_intro _ thrown (conj (Htry w') Htr))
              (Z.to_nat (maxRetries cfg)) 0 None w ltac:(lia))
    as (error & w_last & Hrun & Hlast & _ & _ & Hlog).
  unfold executeWithRetry.
  replace (Z.to_nat (maxRetries cfg + 1)) with (S (Z.to_nat (maxRetries cfg))) by lia.
  rewrite Hrun, Htry in *. injection Hlast as <-.
  rewrite Hlog; [reflexivity|].
  intros w' error' H'. rewrite Htry in H'. injection H' as <-.
  unfold thrown. destruct (String.eqb _ _); reflexivity.
Qed.

Lemma rejected_fetch_exhausts_witness :
  0 <= maxRetries Scenarios.one_retry_cfg
  /\ (forall w', fetch Scenarios.always_aborted w' Scenarios.trends_url Scenarios.get_init
                 = Rejected (mkJsError "AbortError" "This operation was aborted"))
  /\ executeWithRetry Scenarios.always_aborted Scenarios.one_retry_cfg
       Scenarios.trends_url Scenarios.get_init []
     = (Some (inl (ThrowSdk (TimeoutError "Request timed out after 30000ms" 30000))),
        [FetchCall Scenarios.trends_url Scenarios.get_init; Sleep 1000;
         FetchCall Scenarios.trends_url Scenarios.get_init]).
Proof.
  assert (H : 0 <= maxRetries Scenarios.one_retry_cfg) by (simpl; lia).
  split; [exact H|]. split; [reflexivity|].
  exact (rejected_fetch_exhausts Scenarios.always_aborted Scenarios.one_retry_cfg
           Scenarios.trends_url Scenarios.get_init []
           (mkJsError "AbortError" "This operation was aborted") H
           (fun _ => eq_refl)).
Defined.

(** X6.  A response that announces JSON and whose body does not parse is
    not classified by its status: [handleResponse] throws the parse error,
    for a 2xx as for a 401, and at an attempt that is not the last the
    engine takes the exponential pause and sends the request again. *)
Theorem unparseable_body_is_retried (env : Env) (cfg : ResolvedConfig) (url : string)
    (options : RequestInit) (fuel : nat) (attempt : Z) (lastError : option Thrown)
    (w : World) (response : Response) (ct : string) (e : JsError) :
  content_type response = Some ct ->
  includes "application/json" ct = true ->
  json response = inl e ->
  attempt < maxRetries cfg ->
  fetch env w url options = Resolved response ->
  handleResponse response = inl (ThrowJs e)
  /\ exists rest,
       snd (retry_loop env cfg url options (S (S fuel)) attempt lastError w)
       = w ++ [FetchCall url options;
               Sleep (inject_Z (retryDelay cfg * 2 ^ attempt));
               FetchCall url options] ++ rest.
Proof.
  intros Hct Hinc Hjson Hlt Hfetch.
  assert (Hhandle : handleResponse response = inl (ThrowJs e)).
  { unfold handleResponse, parse_body. now rewrite Hct, Hinc, Hjson. }
  split; [exact Hhandle|].
  apply (retry_loop_goes_on env cfg url options fuel attempt lastError w (ThrowJs e) Hlt);
    [|reflexivity|reflexivity].
  unfold try_attempt, fetchWithTimeout. now rewrite Hfetch.
Qed.

(** A 401 that announces JSON and carries HTML: the first attempt throws
    the [SyntaxError], and the engine pauses and asks again. *)
Lemma unparseable_body_is_retried_witness :
  content_type Scenarios.unparseable = Some "application/json"
  /\ includes "application/json" "application/json" = true
  /\ 0 < maxRetries Scenarios.default_cfg
  /\ status Scenarios.unparseable = 401
  /\ handleResponse Scenarios.unparseable
     = inl (ThrowJs (mkJsError "SyntaxError" "Unexpected token < in JSON at position 0"))
  /\ exists rest,
       snd (executeWithRetry (Scenarios.always Scenarios.unparseable)
              Scenarios.default_cfg Scenarios.trends_url Scenarios.get_init [])
       = [FetchCall Scenarios.trends_url Scenarios.get_init; Sleep 1000;
          FetchCall Scenarios.trends_url Scenarios.get_init] ++ rest.
Proof.
  assert (H : 0 < maxRetries Scenarios.default_cfg)
    by (unfold Scenarios.default_cfg, DEFAULT_MAX_RETRIES; simpl; lia).
  split; [reflexivity|]. split; [reflexivity|]. split; [exact H|].
  split; [reflexivity|].
  exact (unparseable_body_is_retried (Scenarios.always Scenarios.unparseable)
           Scenarios.default_cfg Scenarios.trends_url Scenarios.get_init
           2 0 None [] Scenarios.unparseable "application/json" _
           eq_refl eq_refl eq_refl H eq_refl).
Defined.

(** ** An exception in the [catch] clause *)

(** X22.  A rate limit whose reset timestamp is truthy and cannot be
    turned into a number (an object with a [toString] of its own) is not
    retried and is not what the engine throws: the subtraction that
    computes the server delay throws inside the [catch] clause, so the
    engine throws that exception after this one request, without a pause,
    whatever [maxRetries] allows. *)
Theorem unreadable_reset_ends_the_loop (env : Env) (cfg : ResolvedConfig) (url : string)
    (options : RequestInit) (w : World) (response : Response) (message : string)
    (retryAfter : JSON) (limit remaining : option JSON) (e : JsError) :
  0 < maxRetries cfg ->
  fetch env w url options = Resolved response ->
  handleResponse response
    = inl (ThrowSdk (RateLimitError message (Some retryAfter) limit remaining)) ->
  truthy_JSON retryAfter = true ->
  ToNumber retryAfter = inl e ->
  executeWithRetry env cfg url options w
  = (Some (inl (ThrowJs e)), w ++ [FetchCall url options]).
Proof.
  intros Hmax Hfetch Hclass Htruthy Hnumber. unfold executeWithRetry.
  replace (Z.to_nat (maxRetries cfg + 1)) with (S (Z.to_nat (maxRetries cfg))) by lia.
  cbn [retry_loop].
  replace (0 <=? maxRetries cfg) with true by (symmetry; apply Z.leb_le; lia).
  rewrite try_attempt_pair.
  replace (fst (try_attempt env cfg url options w))
    with (@inl Thrown JSON
            (ThrowSdk (RateLimitError message (Some retryAfter) limit remaining)))
    by (unfold try_attempt, fetchWithTimeout; now rewrite Hfetch).
  cbn [rethrown_at_once instanceof_ScrapeBadgerError instanceof_RateLimitError
       negb andb].
  replace (0 =? maxRetries cfg) with false by (symmetry; apply Z.eqb_neq; lia).
  now rewrite Htruthy, Hnumber.
Qed.

(** An always-429 server whose [reset_at] is [{ "toString": 1 }], and the
    default three retries: one request, and a [TypeError]. *)
Lemma unreadable_reset_ends_the_loop_witness :
  0 < maxRetries Scenarios.default_cfg
  /\ truthy_JSON (JObject [("toString", JNumber 1)]) = true
  /\ ToNumber (JObject [("toString", JNumber 1)]) = inl not_primitive
  /\ executeWithRetry (Scenarios.always Scenarios.odd_limit) Scenarios.default_cfg
       Scenarios.trends_url Scenarios.get_init []
     = (Some (inl (ThrowJs not_primitive)),
        [FetchCall Scenarios.trends_url Scenarios.get_init]).
Proof.
  assert (H : 0 < maxRetries Scenarios.default_cfg)
    by (unfold Scenarios.default_cfg, DEFAULT_MAX_RETRIES; simpl; lia).
  split; [exact H|]. split; [reflexivity|]. split; [reflexivity|].
  exact (unreadable_reset_ends_the_loop (Scenarios.always Scenarios.odd_limit)
           Scenarios.default_cfg Scenarios.trends_url Scenarios.get_init []
           Scenarios.odd_limit "Too many requests" (JObject [("toString", JNumber 1)])
           None None not_primitive H eq_refl eq_refl eq_refl eq_refl).
Defined.

(** ** What [handleResponse] returns and throws *)

(** X7.  [handleResponse] returns a value exactly for a 2xx response whose
    body could be read, and the value is that body.  When it throws an SDK
    error the response is not a 2xx, its body was read and is not [null],
    the error is never a [TimeoutError], and its message is the conversion
    to a string of the body's [detail] when that is neither missing nor
    [null], else of its [message] likewise, else of "Request failed".  When
    it throws anything else, that is the error of reading the body, or, for
    a response that is not a 2xx: a [TypeError] when the body is [null] or,
    on a 403, when the message is not a string; on the other statuses the
    exception of the conversion of the message to a string. *)
Theorem handleResponse_returns_iff (response : Response) :
  (forall data, handleResponse response = inr data
                <-> ok response = true /\ parse_body response = inr data)
  /\ (forall e, handleResponse response = inl (ThrowSdk e) ->
        ok response = false
        /\ (forall m t, e <> TimeoutError m t)
        /\ exists data,
             parse_body response = inr data /\ data <> JNull
             /\ ToString (non_null (property "detail" data)
                          ?? non_null (property "message" data)
                          ?? JString "Request failed")
                = inr (error_message e))
  /\ (forall e, handleResponse response = inl (ThrowJs e) ->
        parse_body response = inl (ThrowJs e)
        \/ (ok response = false
            /\ exists data,
                 parse_body response = inr data
                 /\ let message :=
                      non_null (property "detail" data)
                      ?? non_null (property "message" data)
                      ?? JString "Request failed" in
                    (data = JNull /\ js_name e = "TypeError")
                    \/ (status response = 403 /\ js_name e = "TypeError"
                        /\ forall s, message <> JString s)
                    \/ (status response <> 403 /\ ToString message = inl e))).
Proof.
  assert (Hparse : forall e, parse_body response <> inl (ThrowSdk e)).
  { intros e. unfold parse_body.
    destruct (match content_type response with Some ct => _ | None => false end);
      [destruct (json response)|]; discriminate. }
  assert (Hnew : forall m C (t : Thrown),
            throw_new m C = t ->
            match t with
            | ThrowSdk e => exists msg, ToString m = inr msg /\ e = C msg
            | ThrowJs e => ToString m = inl e
            end).
  { intros m C t <-. unfold throw_new. destruct (ToString m); eauto. }
  split; [|split].
  - intros data.
    destruct (parse_body response) as [e|d] eqn:Hp.
    { unfold handleResponse. rewrite Hp.
      split; [discriminate | intros [_ H]; discriminate]. }
    destruct (ok response) eqn:Hok.
    { rewrite (handleResponse_ok response d Hp Hok).
      split; [intros [= ->]; auto | intros [_ [= ->]]; reflexivity]. }
    split; [|intros [H _]; discriminate].
    destruct (JSON_null_dec d) as [->|Hd].
    { now rewrite (handleResponse_null response JNull Hp Hok eq_refl). }
    rewrite (handleResponse_error response d Hp Hok Hd). cbv zeta.
    repeat match goal with
           | |- context [if ?b then _ else _] => destruct b
           | |- context [match ?m with JNull => _ | _ => _ end] => destruct m
           end; discriminate.
  - intros e He.
    destruct (parse_body response) as [e'|d] eqn:Hp.
    { unfold handleResponse in He. rewrite Hp in He. injection He as ->.
      now destruct (Hparse e). }
    destruct (ok response) eqn:Hok.
    { rewrite (handleResponse_ok response d Hp Hok) in He. discriminate. }
    destruct (JSON_null_dec d) as [->|Hd].
    { rewrite (handleResponse_null response JNull Hp Hok eq_refl) in He. discriminate. }
    rewrite (handleResponse_error response d Hp Hok Hd) in He. cbv zeta in He.
    split; [reflexivity|].
    set (message := non_null (property "detail" d) ?? non_null (property "message" d)
                    ?? JString "Request failed") in *.
    assert (Hmsg : (forall m t, e <> TimeoutError m t)
                   /\ ToString message = inr (error_message e)).
    { destruct (status response =? 403) eqn:H403.
      - destruct (status response =? 401); [|destruct (status response =? 402)];
          try (injection He as He; apply Hnew in He as (msg & Hs & ->);
               split; [intros; discriminate | exact Hs]).
        destruct message as [|b|q|s|l|o]; try discriminate.
        destruct (includes "restricted" (toLowerCase s)); injection He as <-;
          split; try reflexivity; intros; discriminate.
      - repeat match type of He with
               | context [if ?b then _ else _] => destruct b
               end;
          injection He as He; apply Hnew in He as (msg & Hs & ->);
          (split; [intros; discriminate | exact Hs]). }
    split; [exact (proj1 Hmsg)|]. exists d. split; [reflexivity|]. split; [exact Hd|].
    exact (proj2 Hmsg).
  - intros e He.
    destruct (parse_body response) as [e'|d] eqn:Hp.
    { left. unfold handleResponse in He. rewrite Hp in He. congruence. }
    right.
    destruct (ok response) eqn:Hok.
    { rewrite (handleResponse_ok response d Hp Hok) in He. discriminate. }
    split; [reflexivity|]. exists d. split; [reflexivity|]. cbv zeta.
    destruct (JSON_null_dec d) as [->|Hd].
    { rewrite (handleResponse_null response JNull Hp Hok eq_refl) in He.
      injection He as <-. left. split; reflexivity. }
    right.
    rewrite (handleResponse_error response d Hp Hok Hd) in He. cbv zeta in He.
    set (message := non_null (property "detail" d) ?? non_null (property "message" d)
                    ?? JString "Request failed") in *.
    destruct (Z.eqb_spec (status response) 403) as [H403|H403].
    + left. split; [exact H403|].
      destruct (status response =? 401) eqn:H401;
        [apply Z.eqb_eq in H401; lia|].
      destruct (status response =? 402) eqn:H402;
        [apply Z.eqb_eq in H402; lia|].
      destruct message as [|b|q|s|l|o];
        try (injection He as <-; split; [reflexivity|]; intros s'; discriminate).
      destruct (includes "restricted" (toLowerCase s)); discriminate.
    + right. split; [exact H403|].
      repeat match type of He with
             | context [if ?b then _ else _] => destruct b
             end;
        injection He as He; exact (Hnew _ _ _ He).
Qed.

(** X8.  A failure whose answer is not announced as JSON (an HTML error
    page, say): the error thrown is an SDK error whose message is the text
    of the body, unchanged. *)
Theorem text_body_becomes_message (response : Response) :
  ok response = false ->
  (content_type response = None
   \/ exists ct, content_type response = Some ct
                 /\ includes "application/json" ct = false) ->
  exists e, handleResponse response = inl (ThrowSdk e)
            /\ error_message e = text response.
Proof.
  intros Hok Hct.
  assert (Hparse : parse_body response
                   = inr (JObject [("detail", JString (text response))])).
  { unfold parse_body. destruct Hct as [-> | (ct & -> & ->)]; reflexivity. }
  unfold handleResponse. rewrite Hparse, Hok.
  cbn [property find fst snd String.eqb Ascii.eqb Bool.eqb fmap option_fmap option_map
       non_null nullish ToString].
  repeat match goal with
         | |- context [if ?b then _ else _] => destruct b
         end; eexists; split; reflexivity.
Qed.

Lemma text_body_becomes_message_witness :
  ok Scenarios.bad_gateway = false
  /\ content_type Scenarios.bad_gateway = Some "text/html"
  /\ includes "application/json" "text/html" = false
  /\ exists e, handleResponse Scenarios.bad_gateway = inl (ThrowSdk e)
               /\ error_message e = "<html>Bad Gateway</html>".
Proof.
  split; [reflexivity|]. split; [reflexivity|]. split; [reflexivity|].
  apply (text_body_becomes_message Scenarios.bad_gateway eq_refl).
  right. exists "text/html". split; reflexivity.
Defined.

(** ** The request descriptor *)

Section Descriptor.
Context {URL : Type}.
Variable new_URL : string -> string -> JsError + URL.
Variable searchParams_set : URL -> string -> string -> URL.
Variable URL_toString : URL -> string.
Variable Number_toString : Q -> string.
Variable JSON_stringify : JSON -> string.
Variable env : Env.
Variable cfg : ResolvedConfig.

Abbreviation request :=
  (request new_URL searchParams_set URL_toString Number_toString JSON_stringify env cfg).

(** X9.  Every request sent for a descriptor uses the descriptor's method,
    GET when none is given.  A GET never carries a body, even when the
    caller supplies one; a body goes out only when it is truthy and the
    method is not GET, and then as its JSON text; a body that is [null],
    [false], [0] or the empty string is not sent. *)
Theorem request_method_and_body (path : string) (options : RequestOptions) (w : World) :
  exists l,
    snd (request path options w) = w ++ l
    /\ Forall (fun e =>
         match e with
         | FetchCall _ init =>
             init_method init = method options ?? GET
             /\ (init_method init = GET -> init_body init = None)
             /\ (forall s, init_body init = Some s ->
                   exists b, body options = Some b /\ truthy_JSON b = true
                             /\ init_method init <> GET /\ s = JSON_stringify b)
             /\ (forall b, body options = Some b -> truthy_JSON b = false ->
                   init_body init = None)
         | Sleep _ => True
         end) l.
Proof.
  unfold Client.request. destruct (new_URL path (baseUrl cfg)) as [e|url].
  - exists []. split; [now rewrite app_nil_r | constructor].
  - unfold executeWithRetry.
    match goal with
    | |- context [retry_loop env cfg ?u ?o ?f ?a ?last w] =>
        destruct (retry_loop_sends_only env cfg u o f a last w) as (l & -> & Hl)
    end.
    exists l. split; [reflexivity|].
    eapply Forall_impl; [exact Hl|].
    intros [u i|ms]; [|auto]. intros [_ ->]. cbn [init_method init_body].
    split; [reflexivity|]. split; [|split].
    + intros ->. destruct (body options) as [b|]; [|reflexivity].
      now rewrite andb_false_r.
    + intros s. destruct (body options) as [b|]; [|discriminate].
      destruct (truthy_JSON b) eqn:Hb; [|discriminate]. cbn [andb].
      destruct (method options ?? GET) eqn:Hm; cbn [Method_eqb negb];
        try discriminate; intros [= <-]; exists b; repeat split; auto; discriminate.
    + intros b -> ->. reflexivity.
Qed.

Lemma fold_params_defined (entries : list (string * option ParamValue)) : forall url,
  fold_left
    (fun url kv =>
       match snd kv with
       | Some value => searchParams_set url (fst kv) (String_of Number_toString value)
       | None => url
       end)
    (List.filter (fun kv => match snd kv with Some _ => true | None => false end) entries)
    url
  = fold_left
      (fun url kv =>
         match snd kv with
         | Some value => searchParams_set url (fst kv) (String_of Number_toString value)
         | None => url
         end)
      entries url.
Proof.
  induction entries as [|[k [v|]] entries IH]; intros url; simpl; auto.
Qed.

(** X10.  Query parameters whose value is [undefined] leave no trace: a
    descriptor and the same descriptor without them give the same requests
    and the same outcome, and an empty parameter object is as good as
    none. *)
Theorem undefined_params_are_skipped (path : string) (options : RequestOptions)
    (w : World) :
  request path options w
  = request path
      (mkRequestOptions (method options)
         (List.filter (fun kv => match snd kv with Some _ => true | None => false end)
            <$> params options)
         (body options) (headers options)) w
  /\ request path (mkRequestOptions (method options) (Some []) (body options)
                     (headers options)) w
     = request path (mkRequestOptions (method options) None (body options)
                       (headers options)) w.
Proof.
  split; [|reflexivity].
  unfold Client.request. cbn [method params body headers].
  destruct (new_URL path (baseUrl cfg)) as [e|url]; [reflexivity|].
  destruct (params options) as [entries|]; [|reflexivity].
  cbn [fmap option_fmap option_map]. now rewrite fold_params_defined.
Qed.

End Descriptor.

(** ** Pagination: what holds for every fetcher *)

Section AnyFetcher.
Context {T S : Type}.
Variable fetchPage : S -> option string -> (Thrown + PaginatedResponse T) * S.
Variable options : IteratorOptions.

Abbreviation run := (run fetchPage options).
Abbreviation step := (step fetchPage options).

Lemma run_yields_below_cap (m : Z) :
  maxItems options = Some m ->
  forall fuel g s,
    match g with
    | Start => 1 <= m -> Z.of_nat (length (yields (fst (fst (run fuel g s))))) <= m
    | InPage _ _ n =>
        n < m -> Z.of_nat (length (yields (fst (fst (run fuel g s))))) <= m - n
    | Yielded _ _ n =>
        n < m -> Z.of_nat (length (yields (fst (fst (run fuel g s))))) <= m - n - 1
    | Failed _ | Done => yields (fst (fst (run fuel g s))) = []
    end.
Proof.
  intros Hcap.
  assert (Hfetch : forall fuel, 
            (forall g s, match g with
               | Start => 1 <= m -> Z.of_nat (length (yields (fst (fst (run fuel g s))))) <= m
               | InPage _ _ n =>
                   n < m -> Z.of_nat (length (yields (fst (fst (run fuel g s))))) <= m - n
               | Yielded _ _ n =>
                   n < m ->
                   Z.of_nat (length (yields (fst (fst (run fuel g s))))) <= m - n - 1
               | Failed _ | Done => yields (fst (fst (run fuel g s))) = []
               end) ->
            forall c n s a g1 s1, n < m ->
              do_fetch fetchPage c n s = (a, g1, s1) ->
              Z.of_nat (length (yields (a :: fst (fst (run fuel g1 s1))))) <= m - n).
  { intros fuel IH c n s a g1 s1 Hn. unfold do_fetch.
    destruct (fetchPage s c) as [[e|p] s2]; intros [= <- <- <-]; simpl.
    - specialize (IH (Failed e) s2). simpl in IH. rewrite IH. simpl. lia.
    - specialize (IH (InPage (data p) (nextCursor p) n) s2). simpl in IH. auto. }
  assert (Hhead : forall fuel,
            (forall g s, match g with
               | Start => 1 <= m -> Z.of_nat (length (yields (fst (fst (run fuel g s))))) <= m
               | InPage _ _ n =>
                   n < m -> Z.of_nat (length (yields (fst (fst (run fuel g s))))) <= m - n
               | Yielded _ _ n =>
                   n < m ->
                   Z.of_nat (length (yields (fst (fst (run fuel g s))))) <= m - n - 1
               | Failed _ | Done => yields (fst (fst (run fuel g s))) = []
               end) ->
            forall items nc n s a g1 s1, n < m ->
              for_head fetchPage items nc n s = (a, g1, s1) ->
              Z.of_nat (length (yields (a :: fst (fst (run fuel g1 s1))))) <= m - n).
  { intros fuel IH items nc n s a g1 s1 Hn. destruct items as [|x rest]; simpl.
    - destruct (truthy nc); [now apply Hfetch|].
      intros [= <- <- <-]. specialize (IH Done s). simpl in IH. simpl.
      rewrite IH. simpl. lia.
    - intros [= <- <- <-]. specialize (IH (Yielded rest nc n) s Hn). simpl in *. lia. }
  induction fuel as [|fuel IH]; intros g s.
  - destruct g; simpl; intros; lia || reflexivity.
  - destruct g as [|items nc n|items nc n|e|]; cbn [Pagination.run Pagination.step].
    + intros Hm.
      destruct (do_fetch fetchPage None 0 s) as [[a g1] s1] eqn:Hf.
      pose proof (Hfetch fuel IH None 0 s a g1 s1 ltac:(lia) Hf) as H.
      destruct (run fuel g1 s1) as [[tr g2] s2]. simpl in *. lia.
    + intros Hn.
      destruct (for_head fetchPage items nc n s) as [[a g1] s1] eqn:Hf.
      pose proof (Hhead fuel IH items nc n s a g1 s1 Hn Hf) as H.
      destruct (run fuel g1 s1) as [[tr g2] s2]. simpl in *. lia.
    + intros Hn. unfold cap_reached. rewrite Hcap.
      destruct (m <=? n + 1) eqn:Hreach.
      * pose proof (IH Done s) as H. simpl in H.
        destruct (run fuel Done s) as [[tr g2] s2]. simpl in *. rewrite H. simpl. lia.
      * apply Z.leb_gt in Hreach.
        destruct (for_head fetchPage items nc (n + 1) s) as [[a g1] s1] eqn:Hf.
        pose proof (Hhead fuel IH items nc (n + 1) s a g1 s1 Hreach Hf) as H.
        destruct (run fuel g1 s1) as [[tr g2] s2]. simpl in *. lia.
    + pose proof (IH Done s) as H. simpl in H.
      destruct (run fuel Done s) as [[tr g2] s2]. simpl in *. exact H.
    + reflexivity.
Qed.

Lemma run_fetches_truthy : forall fuel g s,
  g <> Start ->
  Forall (fun c => exists x, c = Some x /\ x <> "")
    (fetches (fst (fst (run fuel g s)))).
Proof.
  assert (Hhead : forall items nc n s a g1 s1,
            for_head fetchPage items nc n s = (a, g1, s1) ->
            g1 <> Start
            /\ Forall (fun c => exists x, c = Some x /\ x <> "") (fetches [a])).
  { intros items nc n s a g1 s1. destruct items as [|x rest]; simpl.
    - destruct (truthy nc) eqn:Ht.
      + unfold do_fetch. apply truthy_true in Ht.
        destruct (fetchPage s nc) as [[e|p] s2]; intros [= <- <- <-];
          (split; [discriminate | simpl; constructor; [exact Ht | constructor]]).
      + intros [= <- <- <-]. split; [discriminate | constructor].
    - intros [= <- <- <-]. split; [discriminate | constructor]. }
  induction fuel as [|fuel IH]; intros g s Hg; [constructor|].
  assert (Hgo : forall a g1 s1 tr g2 s2,
            g1 <> Start ->
            Forall (fun c => exists x, c = Some x /\ x <> "") (fetches [a]) ->
            run fuel g1 s1 = (tr, g2, s2) ->
            Forall (fun c => exists x, c = Some x /\ x <> "") (fetches (a :: tr))).
  { intros a g1 s1 tr g2 s2 Hg1 Ha Hr. specialize (IH g1 s1 Hg1).
    rewrite Hr in IH. simpl in IH.
    change (a :: tr) with ([a] ++ tr). rewrite fetches_app. apply Forall_app. auto. }
  destruct g as [|items nc n|items nc n|e|]; cbn [Pagination.run Pagination.step];
    [congruence| | | |constructor].
  - destruct (for_head fetchPage items nc n s) as [[a g1] s1] eqn:Hf.
    destruct (Hhead _ _ _ _ _ _ _ Hf).
    destruct (run fuel g1 s1) as [[tr g2] s2] eqn:Hr. cbn [fst].
    eapply Hgo; eauto.
  - destruct (cap_reached options (n + 1)).
    + destruct (run fuel Done s) as [[tr g2] s2] eqn:Hr. cbn [fst].
      apply (Hgo Return Done s tr g2 s2); [discriminate | constructor | exact Hr].
    + destruct (for_head fetchPage items nc (n + 1) s) as [[a g1] s1] eqn:Hf.
      destruct (Hhead _ _ _ _ _ _ _ Hf).
      destruct (run fuel g1 s1) as [[tr g2] s2] eqn:Hr. cbn [fst].
      eapply Hgo; eauto.
  - destruct (run fuel Done s) as [[tr g2] s2] eqn:Hr. cbn [fst].
    apply (Hgo (Throw e) Done s tr g2 s2); [discriminate | constructor | exact Hr].
Qed.

Lemma Steps_UpstreamFails (no_cap : maxItems options = None) s c ps e s' :
  UpstreamFails fetchPage s c ps e s' ->
  forall g n, step g s = Some (do_fetch fetchPage c n s) ->
  Steps fetchPage options g s (fail_trace c ps e) Done s'.
Proof.
  induction 1 as [s c e s' Hf|s c p s1 ps e s' Hf Hnc Hup IH]; intros g n Hg;
    unfold do_fetch in Hg; rewrite Hf in Hg.
  - simpl. econstructor; [exact Hg|]. apply Steps_one. reflexivity.
  - destruct (Steps_items fetchPage options no_cap (data p) _ (nextCursor p) n s1
                (Heads_InPage fetchPage options _ _ _))
      as (g' & Hitems & Hg').
    simpl. econstructor; [exact Hg|].
    eapply Steps_app; [exact Hitems|].
    apply (IH g' (n + Z.of_nat (length (data p)))).
    rewrite Hg'. simpl. now rewrite Hnc.
Qed.

Lemma yields_fail_trace c (ps : list (PaginatedResponse T)) e :
  yields (fail_trace c ps e) = all_items ps.
Proof.
  revert c. induction ps as [|p ps IH]; intros c; [reflexivity|].
  simpl. unfold all_items in *. simpl. now rewrite yields_app, yields_Yield, IH.
Qed.

Lemma thrown_fail_trace c (ps : list (PaginatedResponse T)) e :
  thrown (fail_trace c ps e) = Some e.
Proof.
  revert c. induction ps as [|p ps IH]; intros c; [reflexivity|].
  simpl. rewrite thrown_Yield. apply IH.
Qed.

End AnyFetcher.

(** X11.  Under a cap of at least one item the traversal never yields
    more than the cap: for every fetcher, also one that never runs out of
    pages or that throws, and however long the consumer goes on. *)
Theorem paginate_never_exceeds_cap {T S : Type}
    (fetchPage : S -> option string -> (Thrown + PaginatedResponse T) * S)
    (options : IteratorOptions) (m : Z) (fuel : nat) (s : S) :
  maxItems options = Some m -> 1 <= m ->
  Z.of_nat (length (yields (fst (fst (run fetchPage options fuel
                                        (paginate fetchPage options) s))))) <= m.
Proof.
  intros Hcap Hm.
  exact (run_yields_below_cap fetchPage options m Hcap fuel Start s Hm).
Qed.

Lemma paginate_never_exceeds_cap_witness :
  maxItems (mkOptions None None (Some 4)) = Some 4 /\ 1 <= 4
  /\ Z.of_nat (length (yields (fst (fst (run scripted (mkOptions None None (Some 4)) 10
            (paginate scripted (mkOptions None None (Some 4))) Scenarios.two_pages)))))
     <= 4.
Proof.
  split; [reflexivity|]. split; [lia|].
  apply (paginate_never_exceeds_cap scripted (mkOptions None None (Some 4)) 4 10
           Scenarios.two_pages eq_refl).
  lia.
Defined.

(** X12.  The traversal asks for the first page without a cursor and for
    every later page with a cursor that is a non-empty string: for every
    fetcher, every options and however far the traversal is driven, the
    fetcher is never called with the empty string, and never a second time
    without a cursor. *)
Theorem paginate_fetch_cursors {T S : Type}
    (fetchPage : S -> option string -> (Thrown + PaginatedResponse T) * S)
    (options : IteratorOptions) (fuel : nat) (s : S) :
  fetches (fst (fst (run fetchPage options fuel (paginate fetchPage options) s))) = []
  \/ exists cs,
       fetches (fst (fst (run fetchPage options fuel (paginate fetchPage options) s)))
       = None :: cs
       /\ Forall (fun c => exists x, c = Some x /\ x <> "") cs.
Proof.
  destruct fuel as [|fuel]; [left; reflexivity|]. right.
  unfold paginate. cbn [run step].
  destruct (do_fetch fetchPage None 0 s) as [[a g1] s1] eqn:Hf.
  assert (a = Fetch None /\ g1 <> Start) as [-> Hg1].
  { unfold do_fetch in Hf. destruct (fetchPage s None) as [[e|p] s2];
      injection Hf as <- <- <-; split; (reflexivity || discriminate). }
  pose proof (run_fetches_truthy fetchPage options fuel g1 s1 Hg1) as H.
  destruct (run fetchPage options fuel g1 s1) as [[tr g2] s2]. simpl in *.
  eauto.
Qed.

(** X13.  An exception of the fetcher surfaces unchanged.  With no cap, if
    the fetcher serves the pages [ps] and throws [e] on the next call, the
    traversal yields all the items of [ps] in order, throws [e] and is
    over, without calling the fetcher again; [collectAll] throws [e]. *)
Theorem paginate_propagates_exception {T S : Type}
    (fetchPage : S -> option string -> (Thrown + PaginatedResponse T) * S)
    (options : IteratorOptions) (s : S) ps e s' (fuel : nat) :
  maxItems options = None ->
  UpstreamFails fetchPage s None ps e s' ->
  (length (fail_trace None ps e) <= fuel)%nat ->
  run fetchPage options fuel (paginate fetchPage options) s
    = (fail_trace None ps e, Done, s')
  /\ yields (fail_trace None ps e) = all_items ps
  /\ length (fetches (fail_trace None ps e)) = Datatypes.S (length ps)
  /\ collectAll fetchPage options fuel (paginate fetchPage options) s = Some (inl e).
Proof.
  intros no_cap Hup Hfuel.
  assert (Hrun : run fetchPage options fuel (paginate fetchPage options) s
                 = (fail_trace None ps e, Done, s')).
  { apply Steps_run; [|exact Hfuel].
    apply (Steps_UpstreamFails fetchPage options no_cap s None ps e s' Hup Start 0).
    reflexivity. }
  split; [exact Hrun|]. split; [apply yields_fail_trace|]. split.
  - clear. generalize (@None string). induction ps as [|p ps IH]; intros c;
      [reflexivity|].
    simpl. rewrite fetches_app, fetches_Yield. simpl. now rewrite IH.
  - unfold collectAll. now rewrite Hrun, thrown_fail_trace.
Qed.

(** The mock of the test "respects maxItems limit", driven without a cap:
    after its two pages the mock has nothing more to serve. *)
Lemma paginate_propagates_exception_witness :
  maxItems no_options = None
  /\ collectAll scripted no_options 20 (paginate scripted no_options) Scenarios.two_pages
     = Some (inl (ThrowJs (mkJsError "TypeError"
                    "Cannot read properties of undefined (reading 'data')"))).
Proof.
  split; [reflexivity|].
  refine (proj2 (proj2 (proj2
    (paginate_propagates_exception scripted no_options Scenarios.two_pages
       Scenarios.two_pages _ [] 20 eq_refl _ _)))).
  - eapply UpstreamFails_later; [reflexivity | reflexivity |].
    eapply UpstreamFails_later; [reflexivity | reflexivity |].
    eapply UpstreamFails_here. reflexivity.
  - simpl. lia.
Defined.

(** The cap of 4 over the three pages of the test suite. *)
Lemma paginate_cap_positive_witness :
  maxItems (mkOptions None None (Some 4)) = Some 4 /\ 1 <= 4
  /\ exists tr s'',
       run scripted (mkOptions None None (Some 4)) 10
         (paginate scripted (mkOptions None None (Some 4))) Scenarios.three_pages
       = (tr, Done, s'')
       /\ yields tr = [1; 2; 3; 4]
       /\ fetches tr = [None; Some "page2"].
Proof.
  split; [reflexivity|]. split; [lia|].
  destruct (paginate_cap_positive scripted (mkOptions None None (Some 4)) 4
              Scenarios.three_pages Scenarios.three_pages [] eq_refl ltac:(lia))
    as (tr & s'' & Hrun & Hy & _ & Hf).
  - eapply Upstream_next; [reflexivity | eexists; split; [reflexivity | discriminate] |].
    eapply Upstream_next; [reflexivity | eexists; split; [reflexivity | discriminate] |].
    eapply Upstream_last; [reflexivity | left; reflexivity].
  - exists tr, s''. split; [|split; [exact Hy | exact Hf]].
    apply Hrun.
    assert (Hlen : length (yields tr) = 4%nat) by now rewrite Hy.
    assert (Hlenf : length (fetches tr) = 2%nat) by now rewrite Hf.
    clear - Hrun. 
    destruct (Nat.le_gt_cases (length tr) 10) as [H|H]; [exact H|].
    exfalso.
    pose proof (Hrun (length tr) (Nat.le_refl _)) as Hr.
    assert (Hr10 : run scripted (mkOptions None None (Some 4)) 10
                     (paginate scripted (mkOptions None None (Some 4)))
                     Scenarios.three_pages
                   = ([Fetch None; Yield 1; Yield 2; Fetch (Some "page2"); Yield 3;
                       Yield 4; Return], Done, [mkPage [5] None false]))
      by reflexivity.
    apply run_Steps in Hr10.
    pose proof (Steps_run _ _ _ _ _ _ Hr10 (length tr) ltac:(simpl; lia)) as Hr'.
    rewrite Hr in Hr'. injection Hr' as -> _. simpl in H. lia.
Defined.

(** [collectAll] over the three pages of the test suite. *)
Lemma collectAll_paginate_witness :
  maxItems no_options = None
  /\ collectAll scripted no_options 10 (paginate scripted no_options) Scenarios.three_pages
     = Some (inr [1; 2; 3; 4; 5]).
Proof.
  split; [reflexivity|].
  apply (collectAll_paginate scripted no_options Scenarios.three_pages
           Scenarios.three_pages [] 10 eq_refl).
  - eapply Upstream_next; [reflexivity | eexists; split; [reflexivity | discriminate] |].
    eapply Upstream_next; [reflexivity | eexists; split; [reflexivity | discriminate] |].
    eapply Upstream_last; [reflexivity | left; reflexivity].
  - simpl. lia.
Defined.

(** ** Configuration *)

(** X16.  A configuration that supplies every field, with a non-empty
    key, is taken as it is: the client holds exactly these values, and the
    environment plays no part. *)
Theorem full_config_taken_verbatim (process : ProcessEnv) (rc : ResolvedConfig) :
  apiKey rc <> "" ->
  new_ScrapeBadger process (as_partial rc) = inr (mkScrapeBadger (mkBaseClient rc)).
Proof.
  intros Hkey. unfold new_ScrapeBadger, as_partial. cbn [part_apiKey].
  apply truthy_string_true in Hkey. rewrite Hkey. cbn [negb].
  unfold resolveConfig, with_apiKey. cbn. rewrite Hkey. cbn.
  destruct rc; reflexivity.
Qed.

Lemma full_config_taken_verbatim_witness :
  apiKey Scenarios.one_retry_cfg <> ""
  /\ new_ScrapeBadger Scenarios.env_with_key (as_partial Scenarios.one_retry_cfg)
     = inr (mkScrapeBadger (mkBaseClient Scenarios.one_retry_cfg)).
Proof.
  assert (H : apiKey Scenarios.one_retry_cfg <> "") by discriminate.
  split; [exact H|].
  exact (full_config_taken_verbatim Scenarios.env_with_key Scenarios.one_retry_cfg H).
Defined.

(** ** The resource clients *)

Import Twitter.

Section RunExt.
Context {T S : Type}.
Variables f g : S -> option string -> (Thrown + PaginatedResponse T) * S.
Variables o o' : IteratorOptions.
Hypothesis same_fetcher : forall s c, f s c = g s c.
Hypothesis same_cap : maxItems o = maxItems o'.

Lemma step_ext (st : Gen) (s : S) : step f o st s = step g o' st s.
Proof.
  assert (Hfetch : forall c n, do_fetch f c n s = do_fetch g c n s)
    by (intros; unfold do_fetch; now rewrite same_fetcher).
  assert (Hhead : forall items nc n, for_head f items nc n s = for_head g items nc n s)
    by (intros [|x rest] nc n; simpl; [destruct (truthy nc)|]; auto).
  destruct st; simpl; unfold cap_reached; rewrite <- ?same_cap, ?Hfetch, ?Hhead;
    reflexivity.
Qed.

Lemma run_ext (fuel : nat) : forall st s, run f o fuel st s = run g o' fuel st s.
Proof.
  induction fuel as [|fuel IH]; intros st s; simpl; [reflexivity|].
  rewrite step_ext. destruct (step g o' st s) as [[[a g1] s1]|]; [|reflexivity].
  now rewrite IH.
Qed.

End RunExt.

Lemma member_of_nested (m : CommunityMember) :
  truthy_JSON (user m) = true ->
  member_of (nested m) = inr m /\ moderator_of (nested m) = inr m.
Proof.
  intros Hu.
  assert (Hhas : has_user (nested m) = inr true)
    by (unfold has_user, nested; simpl; now rewrite Hu).
  unfold member_of, moderator_of. rewrite Hhas.
  destruct m as [u [r|] [j|]]; unfold as_CommunityMember, nested; simpl; auto.
Qed.

(** X19.  The member callbacks of [getMembers] and [getModerators].  A
    member that the server nests under a truthy [user] is read as it is, by
    both.  An item that is an object (or an array) without a truthy [user]
    is taken to be the user itself: the member has the item as [user], the
    item's own [role] for [getMembers] and the role "moderator" for
    [getModerators], and the item's [joined_at].  An item that is not an
    object ([null], a boolean, a number, a string) makes both callbacks
    throw a [TypeError]. *)
Theorem community_member_shapes (m : CommunityMember) (item : JSON) :
  (truthy_JSON (user m) = true ->
     member_of (nested m) = inr m /\ moderator_of (nested m) = inr m)
  /\ (is_object item = true ->
      match property "user" item with
      | Some u => truthy_JSON u = false
      | None => True
      end ->
      member_of item
      = inr {| user := item;
               role := property "role" item;
               joined_at := property "joined_at" item |}
      /\ moderator_of item
         = inr {| user := item;
                  role := Some (JString "moderator");
                  joined_at := property "joined_at" item |})
  /\ (is_object item = false ->
      exists e, member_of item = inl (ThrowJs e)
                /\ moderator_of item = inl (ThrowJs e)
                /\ js_name e = "TypeError").
Proof.
  split; [|split].
  - apply member_of_nested.
  - intros Hobject Huser. unfold member_of, moderator_of, has_user.
    destruct item; try discriminate;
      destruct (property "user" _) as [u|]; try rewrite Huser; auto.
  - intros Hobject. unfold member_of, moderator_of, has_user.
    destruct item; try discriminate; eexists; repeat split.
Qed.

Lemma community_member_shapes_witness :
  truthy_JSON (user Scenarios.alice_member) = true
  /\ member_of (nested Scenarios.alice_member) = inr Scenarios.alice_member
  /\ is_object (JObject [("username", JString "bob"); ("role", JNumber 7)]) = true
  /\ member_of (JObject [("username", JString "bob"); ("role", JNumber 7)])
     = inr (mkCommunityMember
              (JObject [("username", JString "bob"); ("role", JNumber 7)])
              (Some (JNumber 7)) None)
  /\ moderator_of (JObject [("username", JString "bob"); ("role", JNumber 7)])
     = inr (mkCommunityMember
              (JObject [("username", JString "bob"); ("role", JNumber 7)])
              (Some (JString "moderator")) None)
  /\ is_object JNull = false
  /\ exists e, member_of JNull = inl (ThrowJs e) /\ js_name e = "TypeError".
Proof.
  destruct (community_member_shapes Scenarios.alice_member
              (JObject [("username", JString "bob"); ("role", JNumber 7)]))
    as (Hnested & Hbare & _).
  destruct (community_member_shapes Scenarios.alice_member JNull)
    as (_ & _ & Hnull).
  split; [reflexivity|]. split; [exact (proj1 (Hnested eq_refl))|].
  split; [reflexivity|]. split; [exact (proj1 (Hbare eq_refl I))|].
  split; [exact (proj2 (Hbare eq_refl I))|].
  split; [reflexivity|].
  destruct (Hnull eq_refl) as (e & He & _ & Hname). exists e. auto.
Defined.

Section ResourceProperties.
Context {URL : Type}.
Variable new_URL : string -> string -> JsError + URL.
Variable searchParams_set : URL -> string -> string -> URL.
Variable URL_toString : URL -> string.
Variable Number_toString : Q -> string.
Variable JSON_stringify : JSON -> string.
Variable env : Env.
Variable cfg : ResolvedConfig.

Abbreviation search :=
  (tweets_search new_URL searchParams_set URL_toString Number_toString JSON_stringify
     env cfg).
Abbreviation searchAll :=
  (tweets_searchAll new_URL searchParams_set URL_toString Number_toString
     JSON_stringify env cfg).
Abbreviation searchAll_fetchPage :=
  (tweets_searchAll_fetchPage new_URL searchParams_set URL_toString Number_toString
     JSON_stringify env cfg).

(** X17.  [searchAll] starts from the first page and leaves the page size
    to the server: the [cursor] and [count] of its options change nothing
    in what it sends, yields or throws. *)
Theorem searchAll_ignores_cursor_and_count (query : string) (options : SearchOptions)
    (cursor0 : option string) (count0 : option Z) (fuel : nat) (w : World) :
  let options' :=
    mkSearchOptions (mkOptions count0 cursor0 (maxItems (iterator options)))
      (queryType options) in
  run (searchAll_fetchPage query options') (iterator options') fuel
      (searchAll query options') w
  = run (searchAll_fetchPage query options) (iterator options) fuel
      (searchAll query options) w.
Proof.
  intros options'. apply run_ext; reflexivity.
Qed.

(** X18.  Errors cross the layers unchanged.  When the answer to the
    first request of [searchAll] is classified as an error of a fatal
    kind, the traversal sends that one request, yields nothing and throws
    that error. *)
Theorem searchAll_fatal_first_page (query : string) (options : SearchOptions)
    (w : World) (response : Response) (e : SdkError) (fuel : nat) :
  0 <= maxRetries cfg ->
  (exists url, new_URL "/v1/twitter/tweets/advanced_search" (baseUrl cfg) = inr url) ->
  (forall url init, fetch env w url init = Resolved response) ->
  handleResponse response = inl (ThrowSdk e) ->
  fatal_kind e = true ->
  (2 <= fuel)%nat ->
  exists url init,
    run (searchAll_fetchPage query options) (iterator options) fuel
        (searchAll query options) w
    = ([Fetch None; Throw (ThrowSdk e)], Done, w ++ [FetchCall url init]).
Proof.
  intros Hmax [url0 Hurl] Hfetch Hclass Hfatal Hfuel.
  assert (Hsearch : exists url init,
            search query (with_cursor options None) w
            = (Some (inl (ThrowSdk e)), w ++ [FetchCall url init])).
  { unfold tweets_search, client_request, request. rewrite Hurl.
    cbn [method params body headers with_params nullish].
    match goal with
    | |- context [executeWithRetry env cfg ?u ?i w] => exists u, i
    end.
    unfold executeWithRetry.
    replace (Z.to_nat (maxRetries cfg + 1)) with (S (Z.to_nat (maxRetries cfg))) by lia.
    rewrite (retry_loop_fatal env cfg _ _ _ 0 None w (ThrowSdk e)); [reflexivity|lia| |].
    - unfold try_attempt, fetchWithTimeout. now rewrite Hfetch.
    - simpl. now rewrite Hfatal. }
  destruct Hsearch as (url & init & Hsearch). exists url, init.
  apply Steps_run; [|simpl; lia].
  econstructor.
  - unfold tweets_searchAll, paginate. cbn [step]. unfold do_fetch.
    unfold tweets_searchAll_fetchPage. rewrite Hsearch. reflexivity.
  - apply Steps_one. reflexivity.
Qed.

(** X20.  [getMembers] gives back what the server nests: when the body
    of the answer lists members nested under [user], the page holds
    exactly these members, in order, and its cursor is the [next_cursor]
    of the body. *)
Theorem getMembers_reads_nested (communityId : string) (options : IteratorOptions)
    (w w' : World) (ms : list CommunityMember) (next : option string) :
  Forall (fun m => truthy_JSON (user m) = true) ms ->
  client_request new_URL searchParams_set URL_toString Number_toString JSON_stringify
    env cfg ("/v1/twitter/communities/" +:+ communityId +:+ "/members")
    (with_params [("count", Some (PNumber (inject_Z (count options ?? 20))));
                  ("cursor", PString <$> cursor options)]) w
  = (Some (inr (JObject
       (("data", JArray (map nested ms))
        :: match next with Some c => [("next_cursor", JString c)] | None => [] end))),
     w') ->
  communities_getMembers new_URL searchParams_set URL_toString Number_toString
    JSON_stringify env cfg communityId options w
  = (Some (inr (createPaginatedResponse ms next)), w').
Proof.
  intros Hms.
  assert (Hmap : map_throwing member_of (map nested ms) = inr ms).
  { induction Hms as [|m ms Hm _ IH]; [reflexivity|].
    cbn [map map_throwing]. now rewrite IH, (proj1 (member_of_nested m Hm)). }
  intros Hreq. unfold communities_getMembers. rewrite Hreq. unfold await, members_page.
  destruct next as [c|]; simpl; now rewrite Hmap.
Qed.

End ResourceProperties.

(** An always-401 server behind [searchAll]. *)
Lemma searchAll_fatal_first_page_witness :
  0 <= maxRetries Scenarios.default_cfg
  /\ exists url init,
       run (tweets_searchAll_fetchPage Scenarios.toy_new_URL Scenarios.toy_set
              Scenarios.toy_toString Scenarios.toy_Number_toString
              Scenarios.toy_stringify (Scenarios.always Scenarios.unauthorized)
              Scenarios.default_cfg "python" (mkSearchOptions no_options None))
           no_options 5
           (tweets_searchAll Scenarios.toy_new_URL Scenarios.toy_set
              Scenarios.toy_toString Scenarios.toy_Number_toString
              Scenarios.toy_stringify (Scenarios.always Scenarios.unauthorized)
              Scenarios.default_cfg "python" (mkSearchOptions no_options None)) []
       = ([Fetch None; Throw (ThrowSdk (AuthenticationError "Invalid API key"))],
          Done, [] ++ [FetchCall url init]).
Proof.
  assert (H : 0 <= maxRetries Scenarios.default_cfg)
    by (unfold Scenarios.default_cfg, DEFAULT_MAX_RETRIES; simpl; lia).
  split; [exact H|].
  apply (searchAll_fatal_first_page Scenarios.toy_new_URL Scenarios.toy_set
           Scenarios.toy_toString Scenarios.toy_Number_toString Scenarios.toy_stringify
           (Scenarios.always Scenarios.unauthorized) Scenarios.default_cfg
           "python" (mkSearchOptions no_options None) [] Scenarios.unauthorized
           (AuthenticationError "Invalid API key") 5 H).
  - eexists. reflexivity.
  - reflexivity.
  - reflexivity.
  - reflexivity.
  - lia.
Defined.

(** X21.  A successful answer that is not JSON is an empty page: the
    engine returns the text wrapped as [{ detail: text }], which has no
    [data] and no [next_cursor], so a listing method reports no items and
    no further page instead of an error. *)
Theorem non_json_success_is_empty_page (response : Response) :
  ok response = true ->
  (content_type response = None
   \/ exists ct, content_type response = Some ct
                 /\ includes "application/json" ct = false) ->
  exists body page,
    handleResponse response = inr body
    /\ paginated body = inr page
    /\ page = createPaginatedResponse [] None
    /\ hasMore page = false.
Proof.
  intros Hok Hct.
  exists (JObject [("detail", JString (text response))]), (createPaginatedResponse [] None).
  split; [|repeat split].
  unfold handleResponse, parse_body.
  destruct Hct as [-> | (ct & -> & ->)]; now rewrite Hok.
Qed.

Lemma non_json_success_is_empty_page_witness :
  ok Scenarios.plain_ok = true
  /\ content_type Scenarios.plain_ok = Some "text/plain"
  /\ includes "application/json" "text/plain" = false
  /\ exists body page,
       handleResponse Scenarios.plain_ok = inr body
       /\ paginated body = inr page
       /\ page = createPaginatedResponse [] None
       /\ hasMore page = false.
Proof.
  split; [reflexivity|]. split; [reflexivity|]. split; [reflexivity|].
  apply (non_json_success_is_empty_page Scenarios.plain_ok eq_refl).
  right. exists "text/plain". split; reflexivity.
Defined.

(** A members request against a server that nests its members. *)
Lemma getMembers_reads_nested_witness :
  Forall (fun m => truthy_JSON (user m) = true) [Scenarios.alice_member]
  /\ fst (communities_getMembers Scenarios.toy_new_URL Scenarios.toy_set
            Scenarios.toy_toString Scenarios.toy_Number_toString Scenarios.toy_stringify
            (Scenarios.always Scenarios.members_response) Scenarios.default_cfg
            "42" no_options [])
     = Some (inr (createPaginatedResponse [Scenarios.alice_member] (Some "m2"))).
Proof.
  assert (H : Forall (fun m => truthy_JSON (user m) = true) [Scenarios.alice_member])
    by (constructor; [reflexivity | constructor]).
  split; [exact H|].
  erewrite (getMembers_reads_nested Scenarios.toy_new_URL Scenarios.toy_set
              Scenarios.toy_toString Scenarios.toy_Number_toString
              Scenarios.toy_stringify (Scenarios.always Scenarios.members_response)
              Scenarios.default_cfg "42" no_options [] _ [Scenarios.alice_member]
              (Some "m2") H); [reflexivity|].
  reflexivity.
Defined.
